(** * http-timeout-wrapper: retry loop, backoff delay and circuit breaker

    A shallow embedding of [src/index.js] (the library module with
    [CircuitBreaker], [calculateDelay], [isRetryableError],
    [fetchWithTimeout] and [HttpWrapper]) and the properties its
    specification states about it.

    Conventions of the embedding:
    - JavaScript numbers that the program counts with or compares
      (counters, thresholds, durations, clock readings, status codes) are
      integers of [Z]; the places where the program leaves the integers
      are modelled on their own: [Math.pow(2, attempt)] overflowing to
      [Infinity] by [jsnum], and the product with [Math.random()] by the
      rounding of doubles;
    - an [Error] object is the finite map of its properties;
    - asynchronous code is modelled by the order of its effects: every
      function that calls out (the operation, the hooks, [sleep], the
      transport) returns the list of the calls it made, oldest first;
    - [execute] describes calls that do not overlap, with hooks that
      return normally; [execute_with_hooks] adds hooks that throw, and
      [reachable_by_blocks] the interleavings of calls that overlap;
    - [Date.now()] and [Math.random()] are inputs. *)

From Stdlib Require Import ZArith Lia List Bool.
From stdpp Require Import base gmap strings list pretty.

Local Open Scope Z_scope.

(** ** JavaScript values *)

Module JS.

(** The primitive values that occur as properties of errors and as the
    elements of the retryable sets. *)
Inductive value : Type :=
  | VUndefined
  | VNull
  | VBool (b : bool)
  | VNum (z : Z)
  | VStr (s : string).

#[global] Instance value_eq_dec : EqDecision value.
Proof. solve_decision. Defined.

(** [ToBoolean]: what [x && ...] tests. *)
Definition truthy (v : value) : bool :=
  match v with
  | VUndefined | VNull => false
  | VBool b => b
  | VNum z => negb (z =? 0)
  | VStr s => negb (String.eqb s "")
  end.

(** [===] on primitives. *)
Definition strict_eq (a b : value) : bool := bool_decide (a = b).

(** [Array.prototype.includes] (SameValueZero; no NaN among the values). *)
Definition includes (xs : list value) (v : value) : bool :=
  existsb (strict_eq v) xs.

(** An object as the map of its properties; a missing property reads as
    [undefined]. For an [Error] the inherited [name] is stored with the
    own properties. *)
Abbreviation object := (gmap string value).

Definition get (o : object) (k : string) : value :=
  default VUndefined (o !! k).

(** [new Error(message)] *)
Definition new_Error (message : string) : object :=
  {[ "name" := VStr "Error"; "message" := VStr message ]}.

(** What a [throw] can carry in this program: an error object, the
    circuit breaker's own error class, or [undefined] (the retry loop's
    [lastError] when no attempt was made). *)
Inductive exn : Type :=
  | Exn_undefined
  | Exn_Error (props : object)
  | Exn_CircuitBreakerOpenError (message : string).

(** How a call ends. *)
Inductive completion (A : Type) : Type :=
  | Return (a : A)
  | Throw (x : exn).
Arguments Return {A} a.
Arguments Throw {A} x.

Definition returns {A : Type} (c : completion A) : bool :=
  match c with
  | Return _ => true
  | Throw _ => false
  end.

(** Numbers that may have left the integers: the result of
    [baseDelay * Math.pow(2, attempt)]. *)
Inductive jsnum : Type :=
  | Fin (z : Z)
  | PosInf
  | NegInf
  | NaN.

(** Doubles overflow to an infinity from [2^1024] on. *)
Definition DBL_OVERFLOW : Z := 2 ^ 1024.

(** [Math.pow(2, attempt)] for a loop counter [attempt]. *)
Definition Math_pow2 (attempt : nat) : jsnum :=
  if Z.of_nat attempt <? 1024 then Fin (2 ^ Z.of_nat attempt) else PosInf.

(** [a * b] for an integer [a]. A product with a power of two is exact
    until it overflows. *)
Definition mul (a : Z) (b : jsnum) : jsnum :=
  match b with
  | Fin z =>
      let p := a * z in
      if DBL_OVERFLOW <=? p then PosInf
      else if p <=? - DBL_OVERFLOW then NegInf
      else Fin p
  | PosInf => if 0 <? a then PosInf else if a <? 0 then NegInf else NaN
  | NegInf => if 0 <? a then NegInf else if a <? 0 then PosInf else NaN
  | NaN => NaN
  end.

(** [Math.min(a, b)] for an integer [b]. *)
Definition Math_min (a : jsnum) (b : Z) : jsnum :=
  match a with
  | Fin z => Fin (Z.min z b)
  | PosInf => Fin b
  | NegInf => NegInf
  | NaN => NaN
  end.

(** [Math.random()] returns [k / 2^53] for some [0 <= k < 2^53]; the
    draw is represented by [k]. *)
Definition RANDOM_DENOM : Z := 2 ^ 53.

(** The double nearest to [p / 2^53] for an integer [p], given by its
    numerator over [2^53]: the 53 leading bits of [p], rounded to nearest,
    ties to even. This is the product of the doubles [k / 2^53] and [z]
    for [p = k * z]. *)
Definition round_to_double (p : Z) : Z :=
  let m := Z.abs p in
  let bits := Z.log2 m + 1 in
  if bits <=? 53 then p
  else
    let shift := bits - 53 in
    let q := m / 2 ^ shift in
    let rem := m mod 2 ^ shift in
    let half := 2 ^ (shift - 1) in
    let q' := if (half <? rem) || ((rem =? half) && Z.odd q) then q + 1 else q in
    Z.sgn p * (q' * 2 ^ shift).

(** [Math.floor(Math.random() * x)] for the draw [k] and a double [x]:
    the product is rounded to a double, then floored. *)
Definition Math_floor_random_mul (k : Z) (x : jsnum) : jsnum :=
  match x with
  | Fin z =>
      let product := round_to_double (k * z) in
      if DBL_OVERFLOW * RANDOM_DENOM <=? product then PosInf
      else if product <=? - (DBL_OVERFLOW * RANDOM_DENOM) then NegInf
      else Fin (product / RANDOM_DENOM)
  | PosInf => if k =? 0 then NaN else PosInf
  | NegInf => if k =? 0 then NaN else NegInf
  | NaN => NaN
  end.

End JS.

Import JS.

(** ** Backoff delay and retry classification *)

(** [calculateDelay(attempt, baseDelay, maxDelay, withJitter)]; [random]
    is the draw [Math.random()] makes when jitter is on. *)
Definition calculateDelay (attempt : nat) (baseDelay maxDelay : Z)
    (withJitter : bool) (random : Z) : jsnum :=
  let exponentialDelay := Math_min (mul baseDelay (Math_pow2 attempt)) maxDelay in
  if negb withJitter then exponentialDelay
  else Math_floor_random_mul random exponentialDelay.

(** [isRetryableError(error, retryableStatuses, retryableErrors)] *)
Definition isRetryableError (error : object)
    (retryableStatuses retryableErrors : list value) : bool :=
  if truthy (get error "status") && includes retryableStatuses (get error "status")
  then true
  else if truthy (get error "code") && includes retryableErrors (get error "code")
  then true
  else if strict_eq (get error "name") (VStr "AbortError")
          || strict_eq (get error "name") (VStr "TimeoutError")
  then true
  else false.

(** ** Effects *)

(** A function supplied by the caller as a hook. *)
Inductive callback : Type :=
  | Callback (id : nat).

(** The calls the program makes to its environment, in the order in which
    they happen. *)
#[local] Set Warnings "-register-all".
Inductive event : Type :=
  | Ev_fn (calls : list event)
      (* the operation passed to [execute] is invoked and makes [calls] *)
  | Ev_onCircuitOpen (hook : callback)
  | Ev_onCircuitClose (hook : callback)
  | Ev_fetchWithTimeout (attempt : nat)
  | Ev_onRetry (hook : callback) (attemptNumber : Z) (error : object)
  | Ev_sleep (delay : jsnum).

Definition is_onCircuitOpen (e : event) : bool :=
  match e with
  | Ev_onCircuitOpen _ => true
  | _ => false
  end.

Definition is_onCircuitClose (e : event) : bool :=
  match e with
  | Ev_onCircuitClose _ => true
  | _ => false
  end.

Definition is_onRetry (e : event) : bool :=
  match e with
  | Ev_onRetry _ _ _ => true
  | _ => false
  end.

Definition is_sleep (e : event) : bool :=
  match e with
  | Ev_sleep _ => true
  | _ => false
  end.

(** [hook?.(...)]: the call happens when the hook is a function. *)
Definition optional_call (hook : option callback) (ev : callback -> event)
    : list event :=
  match hook with
  | Some h => [ev h]
  | None => []
  end.

(** ** The circuit breaker *)

Module CircuitBreaker.

Inductive state_name : Type :=
  | closed
  | open
  | half_open.

#[global] Instance state_name_eq_dec : EqDecision state_name.
Proof. solve_decision. Defined.

(** The [circuitBreaker] part of the configuration. A key that the caller
    left out reads as [undefined] ([None]). *)
Record Config : Type := {
  enabled : option bool;
  failureThreshold : option Z;
  successThreshold : option Z;
  timeout : option Z;
  onCircuitOpen : option callback;
  onCircuitClose : option callback;
}.

Record t : Type := {
  config : Config;
  state : state_name;
  failureCount : Z;
  successCount : Z;
  lastFailureTime : option Z;
}.

(** [this.config.enabled] as a condition: [undefined] is false. *)
Definition is_enabled (config : Config) : bool := default false (enabled config).

(** [constructor(config)] *)
Definition new (config : Config) : t :=
  {| config := config;
     state := closed;
     failureCount := 0;
     successCount := 0;
     lastFailureTime := None |}.

(** [x >= y] where [y] may be [undefined]: a comparison with [undefined]
    is false. *)
Definition ge (x : Z) (y : option Z) : bool :=
  match y with
  | Some y => y <=? x
  | None => false
  end.

(** [null] converts to 0 in [now - this.lastFailureTime]. *)
Definition to_number (x : option Z) : Z := default 0 x.

(** [onSuccess()] *)
Definition onSuccess (cb : t) : t * list event :=
  let failureCount' := 0 in
  let successCount' := successCount cb + 1 in
  if bool_decide (state cb = half_open) then
    if ge successCount' (successThreshold (config cb)) then
      ({| config := config cb;
          state := closed;
          failureCount := failureCount';
          successCount := 0;
          lastFailureTime := lastFailureTime cb |},
       optional_call (onCircuitClose (config cb)) Ev_onCircuitClose)
    else
      ({| config := config cb;
          state := state cb;
          failureCount := failureCount';
          successCount := successCount';
          lastFailureTime := lastFailureTime cb |},
       [])
  else
    ({| config := config cb;
        state := state cb;
        failureCount := failureCount';
        successCount := successCount';
        lastFailureTime := lastFailureTime cb |},
     []).

(** [onFailure()]; [now] is what [Date.now()] returns there. *)
Definition onFailure (cb : t) (now : Z) : t * list event :=
  let failureCount' := failureCount cb + 1 in
  if ge failureCount' (failureThreshold (config cb)) then
    if negb (bool_decide (state cb = open)) then
      ({| config := config cb;
          state := open;
          failureCount := failureCount';
          successCount := 0;
          lastFailureTime := Some now |},
       optional_call (onCircuitOpen (config cb)) Ev_onCircuitOpen)
    else
      ({| config := config cb;
          state := state cb;
          failureCount := failureCount';
          successCount := 0;
          lastFailureTime := Some now |},
       [])
  else
    ({| config := config cb;
        state := state cb;
        failureCount := failureCount';
        successCount := 0;
        lastFailureTime := Some now |},
     []).

(** The first part of [execute], for an enabled breaker: an open circuit
    whose timeout has passed becomes half-open, an open circuit whose
    timeout has not passed rejects the call ([None]). *)
Definition pass_gate (cb : t) (now : Z) : option t :=
  if bool_decide (state cb = open) then
    if ge (now - to_number (lastFailureTime cb)) (timeout (config cb)) then
      Some {| config := config cb;
              state := half_open;
              failureCount := failureCount cb;
              successCount := 0;
              lastFailureTime := lastFailureTime cb |}
    else None
  else Some cb.

(** The [try]/[catch] part of [execute]: run the operation, then record
    its outcome. The operation [fn] is given by the calls it makes and the
    way it ends; [now'] is the clock reading of [onFailure]. *)
Definition settle {A : Type} (cb : t) (fn : list event * completion A)
    (now' : Z) : t * list event * completion A :=
  match snd fn with
  | Return result =>
      let (cb', hooks) := onSuccess cb in
      (cb', Ev_fn (fst fn) :: hooks, Return result)
  | Throw error =>
      let (cb', hooks) := onFailure cb now' in
      (cb', Ev_fn (fst fn) :: hooks, Throw error)
  end.

(** [execute(fn)]; [now] is the clock reading at entry. The result is the
    breaker afterwards, the calls made and the completion. *)
Definition execute {A : Type} (cb : t) (now : Z)
    (fn : list event * completion A) (now' : Z)
    : t * list event * completion A :=
  if negb (is_enabled (config cb)) then (cb, [Ev_fn (fst fn)], snd fn)
  else
    match pass_gate cb now with
    | None => (cb, [], Throw (Exn_CircuitBreakerOpenError "Circuit breaker is OPEN"))
    | Some cb1 => settle cb1 fn now'
    end.

(** The snapshot [getState()] returns. *)
Record Snapshot : Type := {
  snap_state : state_name;
  snap_failureCount : Z;
  snap_successCount : Z;
  snap_lastFailureTime : option Z;
}.

(** [getState()] *)
Definition getState (cb : t) : Snapshot :=
  {| snap_state := state cb;
     snap_failureCount := failureCount cb;
     snap_successCount := successCount cb;
     snap_lastFailureTime := lastFailureTime cb |}.

(** [reset()] *)
Definition reset (cb : t) : t :=
  {| config := config cb;
     state := closed;
     failureCount := 0;
     successCount := 0;
     lastFailureTime := None |}.

(** One call of [execute]: the two clock readings and the operation. *)
Record call (A : Type) : Type := {
  at_entry : Z;
  fn : list event * completion A;
  at_catch : Z;
}.
Arguments at_entry {A} c.
Arguments fn {A} c.
Arguments at_catch {A} c.

(** A sequence of [execute] calls on the same breaker: the breaker
    afterwards and all the calls made. *)
Fixpoint run {A : Type} (cb : t) (calls : list (call A)) : t * list event :=
  match calls with
  | [] => (cb, [])
  | c :: rest =>
      let '(cb1, evs, _) := execute cb (at_entry c) (fn c) (at_catch c) in
      let (cb2, evs') := run cb1 rest in
      (cb2, evs ++ evs')
  end.

(** The calls of a sequence whose operations all succeed. *)
Definition all_succeed {A : Type} (calls : list (call A)) : Prop :=
  Forall (fun c => returns (fn c).2 = true) calls.

(** The calls of a sequence whose operations all fail. *)
Definition all_fail {A : Type} (calls : list (call A)) : Prop :=
  Forall (fun c => returns (fn c).2 = false) calls.

(** What a caller can do with a breaker. *)
Inductive step (cb : t) : t -> Prop :=
  | step_execute {A : Type} (now : Z) (fn : list event * completion A) (now' : Z) :
      step cb (execute cb now fn now').1.1
  | step_getState (s : Snapshot) :
      s = getState cb -> step cb cb
  | step_reset :
      step cb (reset cb).

(** The breakers that a sequence of such calls leads to from a new one. *)
Inductive reachable (cfg : Config) : t -> Prop :=
  | reachable_new : reachable cfg (new cfg)
  | reachable_step (cb cb' : t) :
      reachable cfg cb -> step cb cb' -> reachable cfg cb'.

End CircuitBreaker.

(** ** The transport: one attempt *)

(** What the program reads of a [fetch] response. *)
Record Response : Type := {
  ok : bool;
  status : Z;
  statusText : string;
}.

(** How the [fetch] call of one attempt ends. The abort that the timer of
    [fetchWithTimeout] causes is a rejection with an error named
    [AbortError]. *)
Inductive fetch_outcome : Type :=
  | Fetch_resolved (response : Response)
  | Fetch_rejected (error : object).

(** How one attempt ends. *)
Inductive attempt_result : Type :=
  | Attempt_ok (response : Response)
  | Attempt_failed (error : object).

(** [fetchWithTimeout(url, options, timeout)], given how its [fetch] call
    ends. The error thrown for a response that is not [ok] passes through
    the [catch] clause of the same function. The messages print a number
    by its decimal digits, which is how the template literals print an
    integer of magnitude up to [2^53]; larger numbers, which the program
    prints rounded or with an exponent, are outside the messages modelled
    here. *)
Definition fetchWithTimeout (raw : fetch_outcome) (timeout : Z) : attempt_result :=
  let catch (error : object) : attempt_result :=
    if strict_eq (get error "name") (VStr "AbortError") then
      Attempt_failed
        (<["name" := VStr "TimeoutError"]>
           (new_Error ("Request timeout after " +:+ pretty timeout +:+ "ms")))
    else Attempt_failed error in
  match raw with
  | Fetch_resolved response =>
      if negb (ok response) then
        catch (<["status" := VNum (status response)]>
                 (new_Error ("HTTP " +:+ pretty (status response) +:+ ": "
                             +:+ statusText response)))
      else Attempt_ok response
  | Fetch_rejected error => catch error
  end.

(** ** The client *)

Module HttpWrapper.

Record Config : Type := {
  timeout : Z;
  maxRetries : Z;
  baseDelay : Z;
  maxDelay : Z;
  retryableStatuses : list value;
  retryableErrors : list value;
  circuitBreaker : CircuitBreaker.Config;
  jitter : bool;
  onRetry : option callback;
  onCircuitOpen : option callback;
  onCircuitClose : option callback;
}.

(** [DEFAULT_CONFIG] *)
Definition DEFAULT_CONFIG : Config :=
  {| timeout := 30000;
     maxRetries := 3;
     baseDelay := 1000;
     maxDelay := 30000;
     retryableStatuses := [VNum 408; VNum 429; VNum 500; VNum 502; VNum 503; VNum 504];
     retryableErrors := [VStr "ECONNRESET"; VStr "ECONNREFUSED"; VStr "ETIMEDOUT";
                         VStr "ENOTFOUND"];
     circuitBreaker :=
       {| CircuitBreaker.enabled := Some true;
          CircuitBreaker.failureThreshold := Some 5;
          CircuitBreaker.successThreshold := Some 2;
          CircuitBreaker.timeout := Some 60000;
          CircuitBreaker.onCircuitOpen := None;
          CircuitBreaker.onCircuitClose := None |};
     jitter := true;
     onRetry := None;
     onCircuitOpen := None;
     onCircuitClose := None |}.

(** An object that holds some of the configuration keys: the argument of
    the constructor and of [updateConfig], and the [options] of a
    request. [None] is a key that is not there. *)
Record Options : Type := {
  o_timeout : option Z;
  o_maxRetries : option Z;
  o_baseDelay : option Z;
  o_maxDelay : option Z;
  o_retryableStatuses : option (list value);
  o_retryableErrors : option (list value);
  o_circuitBreaker : option CircuitBreaker.Config;
  o_jitter : option bool;
  o_onRetry : option (option callback);
  o_onCircuitOpen : option (option callback);
  o_onCircuitClose : option (option callback);
}.

(** [{}] *)
Definition no_options : Options :=
  {| o_timeout := None; o_maxRetries := None; o_baseDelay := None;
     o_maxDelay := None; o_retryableStatuses := None;
     o_retryableErrors := None; o_circuitBreaker := None; o_jitter := None;
     o_onRetry := None; o_onCircuitOpen := None; o_onCircuitClose := None |}.

(** [{ ...base, ...over }]: a key of [over] replaces the key of [base],
    whatever its value; the nested [circuitBreaker] object is replaced as
    a whole. *)
Definition spread (base : Config) (over : Options) : Config :=
  {| timeout := default (timeout base) (o_timeout over);
     maxRetries := default (maxRetries base) (o_maxRetries over);
     baseDelay := default (baseDelay base) (o_baseDelay over);
     maxDelay := default (maxDelay base) (o_maxDelay over);
     retryableStatuses := default (retryableStatuses base) (o_retryableStatuses over);
     retryableErrors := default (retryableErrors base) (o_retryableErrors over);
     circuitBreaker := default (circuitBreaker base) (o_circuitBreaker over);
     jitter := default (jitter base) (o_jitter over);
     onRetry := default (onRetry base) (o_onRetry over);
     onCircuitOpen := default (onCircuitOpen base) (o_onCircuitOpen over);
     onCircuitClose := default (onCircuitClose base) (o_onCircuitClose over) |}.



Record t : Type := {
  config : Config;
  breaker : CircuitBreaker.t;
    (* [this.circuitBreaker] *)
}.

(** [constructor(config = {})] *)
Definition new (config : Options) : t :=
  let merged := spread DEFAULT_CONFIG config in
  {| config := merged;
     breaker := CircuitBreaker.new (circuitBreaker merged) |}.


(** The retry loop of [request]. *)
Section RetryLoop.

(** How attempt number [attempt] ends, and the draw of [Math.random()]
    after it. *)
Variable attemptFn : nat -> attempt_result.
Variable random : nat -> Z.
Variable effectiveConfig : Config.

(** The [for] loop from [attempt] on, followed by [throw lastError].
    [iterations] is the number of iterations the loop condition
    [attempt <= maxRetries] still allows; at 0 the condition is false. *)
Fixpoint retry_loop (iterations : nat) (attempt : nat) (lastError : exn)
    : list event * completion Response :=
  match iterations with
  | O => ([], Throw lastError)
  | S iterations' =>
      match attemptFn attempt with
      | Attempt_ok response =>
          ([Ev_fetchWithTimeout attempt], Return response)
      | Attempt_failed error =>
          if Z.of_nat attempt =? maxRetries effectiveConfig then
            ([Ev_fetchWithTimeout attempt], Throw (Exn_Error error))
          else if negb (isRetryableError error
                          (retryableStatuses effectiveConfig)
                          (retryableErrors effectiveConfig)) then
            ([Ev_fetchWithTimeout attempt], Throw (Exn_Error error))
          else
            let delay :=
              calculateDelay attempt (baseDelay effectiveConfig)
                (maxDelay effectiveConfig) (jitter effectiveConfig)
                (random attempt) in
            let (later, result) :=
              retry_loop iterations' (S attempt) (Exn_Error error) in
            (Ev_fetchWithTimeout attempt
               :: optional_call (onRetry effectiveConfig)
                    (fun hook => Ev_onRetry hook (Z.of_nat attempt + 1) error)
               ++ Ev_sleep delay :: later,
             result)
      end
  end.

(** The loop from a given value of the counter. *)
Definition retry_from (attempt : nat) (lastError : exn)
    : list event * completion Response :=
  retry_loop (Z.to_nat (maxRetries effectiveConfig + 1 - Z.of_nat attempt))
    attempt lastError.

(** The function that [request] passes to the circuit breaker. *)
Definition operation : list event * completion Response :=
  retry_from 0 Exn_undefined.

End RetryLoop.

(** [request(url, options)]: [transport] is how the [fetch] call of each
    attempt ends; [now] and [now'] are the clock readings of the circuit
    breaker. The result is the client afterwards, the calls made and the
    completion. *)
Definition request (w : t) (options : Options) (now : Z)
    (transport : nat -> fetch_outcome) (random : nat -> Z) (now' : Z)
    : t * list event * completion Response :=
  let effectiveConfig := spread (config w) options in
  let attemptFn attempt :=
    fetchWithTimeout (transport attempt) (timeout effectiveConfig) in
  let '(cb, evs, result) :=
    CircuitBreaker.execute (breaker w) now
      (operation attemptFn random effectiveConfig) now' in
  ({| config := config w; breaker := cb |}, evs, result).

(** [getCircuitBreakerState()] *)
Definition getCircuitBreakerState (w : t) : CircuitBreaker.Snapshot :=
  CircuitBreaker.getState (breaker w).

(** [resetCircuitBreaker()] *)
Definition resetCircuitBreaker (w : t) : t :=
  {| config := config w; breaker := CircuitBreaker.reset (breaker w) |}.

End HttpWrapper.

(** ** Fixtures

    The breaker of the repository's tests,
    [new CircuitBreaker({ enabled: true, failureThreshold: 2,
    successThreshold: 2, timeout: 100 })], here with both hooks set, and
    operations that fail and succeed. *)

Definition test_breaker_config : CircuitBreaker.Config :=
  {| CircuitBreaker.enabled := Some true;
     CircuitBreaker.failureThreshold := Some 2;
     CircuitBreaker.successThreshold := Some 2;
     CircuitBreaker.timeout := Some 100;
     CircuitBreaker.onCircuitOpen := Some (Callback 1);
     CircuitBreaker.onCircuitClose := Some (Callback 2) |}.

(** [new CircuitBreaker({ enabled: false })], the disabled breaker of the
    repository's tests. *)
Definition disabled_breaker_config : CircuitBreaker.Config :=
  {| CircuitBreaker.enabled := Some false;
     CircuitBreaker.failureThreshold := None;
     CircuitBreaker.successThreshold := None;
     CircuitBreaker.timeout := None;
     CircuitBreaker.onCircuitOpen := None;
     CircuitBreaker.onCircuitClose := None |}.

(** [() => Promise.reject(new Error('Fail'))] *)
Definition failingFn : list event * completion string :=
  ([], Throw (Exn_Error (new_Error "Fail"))).

(** [() => Promise.resolve('ok')] *)
Definition succeedingFn : list event * completion string :=
  ([], Return "ok"%string).

(** A call of [execute] at time [now] with an operation that settles at
    once. *)
Definition call_at (now : Z) (fn : list event * completion string)
    : CircuitBreaker.call string :=
  {| CircuitBreaker.at_entry := now;
     CircuitBreaker.fn := fn;
     CircuitBreaker.at_catch := now |}.

(** Responses and a transport that answers attempt [i] with the [i]-th
    response of a list, and with a rejected connection after the list. *)
Definition response_200 : Response :=
  {| ok := true; status := 200; statusText := "OK" |}.

Definition response_404 : Response :=
  {| ok := false; status := 404; statusText := "Not Found" |}.

Definition response_503 : Response :=
  {| ok := false; status := 503; statusText := "Service Unavailable" |}.

Definition transport_of (responses : list Response) (attempt : nat) : fetch_outcome :=
  match responses !! attempt with
  | Some response => Fetch_resolved response
  | None => Fetch_rejected (<["code" := VStr "ECONNREFUSED"]> (new_Error "fetch failed"))
  end.

(** The errors [fetchWithTimeout] throws for these responses. *)
Definition error_404 : object :=
  <["status" := VNum 404]> (new_Error "HTTP 404: Not Found").

Definition error_503 : object :=
  <["status" := VNum 503]> (new_Error "HTTP 503: Service Unavailable").


(** [{ maxRetries: 2, retryableStatuses: [], retryableErrors: [],
    onRetry: ... }] *)
Definition options_nothing_retryable : HttpWrapper.Options :=
  {| HttpWrapper.o_timeout := None;
     HttpWrapper.o_maxRetries := Some 2;
     HttpWrapper.o_baseDelay := None;
     HttpWrapper.o_maxDelay := None;
     HttpWrapper.o_retryableStatuses := Some [];
     HttpWrapper.o_retryableErrors := Some [];
     HttpWrapper.o_circuitBreaker := None;
     HttpWrapper.o_jitter := None;
     HttpWrapper.o_onRetry := Some (Some (Callback 3));
     HttpWrapper.o_onCircuitOpen := None;
     HttpWrapper.o_onCircuitClose := None |}.


(** [{ maxRetries: -1 }] *)
Definition options_negative_maxRetries : HttpWrapper.Options :=
  {| HttpWrapper.o_timeout := None;
     HttpWrapper.o_maxRetries := Some (-1);
     HttpWrapper.o_baseDelay := None;
     HttpWrapper.o_maxDelay := None;
     HttpWrapper.o_retryableStatuses := None;
     HttpWrapper.o_retryableErrors := None;
     HttpWrapper.o_circuitBreaker := None;
     HttpWrapper.o_jitter := None;
     HttpWrapper.o_onRetry := None;
     HttpWrapper.o_onCircuitOpen := None;
     HttpWrapper.o_onCircuitClose := None |}.


(** The most generous reading of an error that reports the attempt count
    [n]: one of its properties holds the number [n]. *)
Definition reports_attempt_count (x : exn) (n : Z) : bool :=
  match x with
  | Exn_Error props =>
      existsb (fun kv : string * value => strict_eq kv.2 (VNum n)) (map_to_list props)
  | _ => false
  end.

(** ** Further operations and observations *)

Definition is_fetchWithTimeout (e : event) : bool :=
  match e with
  | Ev_fetchWithTimeout _ => true
  | _ => false
  end.

(** The delays of the [sleep] calls among [evs], in order. *)
Definition sleep_delays (evs : list event) : list jsnum :=
  omap (fun e => match e with Ev_sleep delay => Some delay | _ => None end) evs.


(** The inputs of one call of [request]. *)
Record request_call : Type := {
  rc_options : HttpWrapper.Options;
  rc_now : Z;
  rc_transport : nat -> fetch_outcome;
  rc_random : nat -> Z;
  rc_catch : Z;
}.

(** A sequence of [request] calls on the same client: the client
    afterwards and how each request ended. *)
Fixpoint requests (w : HttpWrapper.t) (calls : list request_call)
    : HttpWrapper.t * list (completion Response) :=
  match calls with
  | [] => (w, [])
  | c :: rest =>
      let '(w1, _, result) :=
        HttpWrapper.request w (rc_options c) (rc_now c) (rc_transport c)
          (rc_random c) (rc_catch c) in
      let (w2, results) := requests w1 rest in
      (w2, result :: results)
  end.

(** [{ circuitBreaker: { enabled: true } }] *)
Definition options_partial_circuitBreaker : HttpWrapper.Options :=
  {| HttpWrapper.o_timeout := None;
     HttpWrapper.o_maxRetries := None;
     HttpWrapper.o_baseDelay := None;
     HttpWrapper.o_maxDelay := None;
     HttpWrapper.o_retryableStatuses := None;
     HttpWrapper.o_retryableErrors := None;
     HttpWrapper.o_circuitBreaker :=
       Some {| CircuitBreaker.enabled := Some true;
               CircuitBreaker.failureThreshold := None;
               CircuitBreaker.successThreshold := None;
               CircuitBreaker.timeout := None;
               CircuitBreaker.onCircuitOpen := None;
               CircuitBreaker.onCircuitClose := None |};
     HttpWrapper.o_jitter := None;
     HttpWrapper.o_onRetry := None;
     HttpWrapper.o_onCircuitOpen := None;
     HttpWrapper.o_onCircuitClose := None |}.

(** [{ maxRetries: 0 }] *)
Definition options_zero_maxRetries : HttpWrapper.Options :=
  {| HttpWrapper.o_timeout := None;
     HttpWrapper.o_maxRetries := Some 0;
     HttpWrapper.o_baseDelay := None;
     HttpWrapper.o_maxDelay := None;
     HttpWrapper.o_retryableStatuses := None;
     HttpWrapper.o_retryableErrors := None;
     HttpWrapper.o_circuitBreaker := None;
     HttpWrapper.o_jitter := None;
     HttpWrapper.o_onRetry := None;
     HttpWrapper.o_onCircuitOpen := None;
     HttpWrapper.o_onCircuitClose := None |}.

(** [{ onCircuitOpen: ..., onCircuitClose: ... }], the hooks at the top
    level of the options. *)
Definition options_top_level_hooks : HttpWrapper.Options :=
  {| HttpWrapper.o_timeout := None;
     HttpWrapper.o_maxRetries := None;
     HttpWrapper.o_baseDelay := None;
     HttpWrapper.o_maxDelay := None;
     HttpWrapper.o_retryableStatuses := None;
     HttpWrapper.o_retryableErrors := None;
     HttpWrapper.o_circuitBreaker := None;
     HttpWrapper.o_jitter := None;
     HttpWrapper.o_onRetry := None;
     HttpWrapper.o_onCircuitOpen := Some (Some (Callback 1));
     HttpWrapper.o_onCircuitClose := Some (Some (Callback 2)) |}.

(** The function that the request [c] of a client with configuration
    [base] passes to the circuit breaker. *)
Definition request_operation (base : HttpWrapper.Config) (c : request_call)
    : list event * completion Response :=
  let effectiveConfig := HttpWrapper.spread base (rc_options c) in
  HttpWrapper.operation
    (fun attempt =>
       fetchWithTimeout (rc_transport c attempt) (HttpWrapper.timeout effectiveConfig))
    (rc_random c) effectiveConfig.

(** The call of [execute] that the request [c] makes. *)
Definition request_as_call (base : HttpWrapper.Config) (c : request_call)
    : CircuitBreaker.call Response :=
  {| CircuitBreaker.at_entry := rc_now c;
     CircuitBreaker.fn := request_operation base c;
     CircuitBreaker.at_catch := rc_catch c |}.

(** A request at time [now] whose every attempt gets the response
    [response]. *)
Definition request_at (now : Z) (response : Response) : request_call :=
  {| rc_options := HttpWrapper.no_options;
     rc_now := now;
     rc_transport := fun _ => Fetch_resolved response;
     rc_random := fun _ => 0;
     rc_catch := now |}.

(** ** The command line: [parseHeaders]

    A JavaScript string is the list of its UTF-16 code units. *)

Module Cli.

Abbreviation jsstring := (list N).

(** The code units of an ASCII string. *)
Definition units (s : string) : jsstring :=
  map Ascii.N_of_ascii (String.list_ascii_of_string s).

(** [':'] *)
Definition colon : N := 58.

(** The code units that [trim] removes: the white space and the line
    terminators of the language. *)
Definition is_white_space (c : N) : bool :=
  ((9 <=? c) && (c <=? 13)            (* TAB, LF, VT, FF, CR *)
   || (c =? 32)                       (* SP *)
   || (c =? 160)                      (* NBSP *)
   || (c =? 5760)                     (* U+1680 *)
   || ((8192 <=? c) && (c <=? 8202))  (* U+2000 to U+200A *)
   || (c =? 8232) || (c =? 8233)      (* LS, PS *)
   || (c =? 8239)                     (* U+202F *)
   || (c =? 8287)                     (* U+205F *)
   || (c =? 12288)                    (* U+3000 *)
   || (c =? 65279))%N.                (* U+FEFF *)

(** [s.trimStart()] *)
Fixpoint trimStart (s : jsstring) : jsstring :=
  match s with
  | [] => []
  | c :: rest => if is_white_space c then trimStart rest else s
  end.

(** [s.trimEnd()] *)
Definition trimEnd (s : jsstring) : jsstring := rev (trimStart (rev s)).

(** [s.trim()] *)
Definition trim (s : jsstring) : jsstring := trimEnd (trimStart s).

(** [s.includes(sep)] for a separator of one code unit. *)
Definition includes (s : jsstring) (sep : N) : bool := existsb (N.eqb sep) s.

(** [s.split(sep)] for a separator of one code unit: the pieces between
    the separators, at least one. *)
Fixpoint split (sep : N) (s : jsstring) : list jsstring :=
  match s with
  | [] => [[]]
  | c :: rest =>
      if (c =? sep)%N then [] :: split sep rest
      else
        match split sep rest with
        | piece :: pieces => (c :: piece) :: pieces
        | [] => [[c]]
        end
  end.

(** [pieces.join(sep)] *)
Fixpoint join (sep : N) (pieces : list jsstring) : jsstring :=
  match pieces with
  | [] => []
  | [piece] => piece
  | piece :: rest => piece ++ sep :: join sep rest
  end.

(** What [parseHeaders] is given: one string, or an array of strings. *)
Inductive headers_arg : Type :=
  | One (header : jsstring)
  | Many (headers : list jsstring).

(** [result[key] = value] on an object literal, for a string [value]:
    assigning a string to [__proto__] changes nothing. *)
Definition set_property (result : gmap jsstring jsstring) (key value : jsstring)
    : gmap jsstring jsstring :=
  if decide (key = units "__proto__") then result else <[key := value]> result.

(** The body of the [forEach] callback. *)
Definition add_header (result : gmap jsstring jsstring) (header : jsstring)
    : gmap jsstring jsstring :=
  if includes header colon then
    let pieces := split colon header in
    let name := hd [] pieces in
    let valueParts := tl pieces in
    set_property result (trim name) (trim (join colon valueParts))
  else result.

(** [parseHeaders(headers)] *)
Definition parseHeaders (headers : headers_arg) : gmap jsstring jsstring :=
  let headersArray :=
    match headers with
    | One header => [header]
    | Many headers => headers
    end in
  fold_left add_header headersArray ∅.

End Cli.

(** ** Hooks that throw, and calls that overlap *)

(** The hook that the call [e] calls. *)
Definition hook_of (e : event) : option callback :=
  match e with
  | Ev_onCircuitOpen hook | Ev_onCircuitClose hook => Some hook
  | _ => None
  end.

(** What the last hook among [hooks] that throws has thrown, where
    [throws hook] is what [hook] throws when it is called, if anything. *)
Definition thrown (throws : callback -> option exn) (hooks : list event) : option exn :=
  fold_left
    (fun earlier e =>
       match hook_of e with
       | Some hook =>
           match throws hook with
           | Some x => Some x
           | None => earlier
           end
       | None => earlier
       end)
    hooks None.

(** [execute(fn)] with hooks that may throw. A hook is the last statement
    of [onSuccess] and of [onFailure], so the breaker is updated before
    the hook throws. What [onSuccess] throws inside the [try] block is
    caught like a failure of the operation: [onFailure] runs, and the
    exception is thrown on; what [onFailure] throws inside the [catch]
    block replaces the exception. *)
Definition execute_with_hooks {A : Type} (throws : callback -> option exn)
    (cb : CircuitBreaker.t) (now : Z) (fn : list event * completion A) (now' : Z)
    : CircuitBreaker.t * list event * completion A :=
  if negb (CircuitBreaker.is_enabled (CircuitBreaker.config cb))
  then (cb, [Ev_fn fn.1], fn.2)
  else
    match CircuitBreaker.pass_gate cb now with
    | None => (cb, [], Throw (Exn_CircuitBreakerOpenError "Circuit breaker is OPEN"))
    | Some cb1 =>
        let catch (cb2 : CircuitBreaker.t) (before : list event) (error : exn)
            : CircuitBreaker.t * list event * completion A :=
          let (cb3, hooks) := CircuitBreaker.onFailure cb2 now' in
          match thrown throws hooks with
          | Some x => (cb3, before ++ hooks, Throw x)
          | None => (cb3, before ++ hooks, Throw error)
          end in
        match fn.2 with
        | Return result =>
            let (cb2, hooks) := CircuitBreaker.onSuccess cb1 in
            match thrown throws hooks with
            | Some x => catch cb2 (Ev_fn fn.1 :: hooks) x
            | None => (cb2, Ev_fn fn.1 :: hooks, Return result)
            end
        | Throw error => catch cb1 [Ev_fn fn.1] error
        end
    end.

(** The synchronous blocks of [execute] and [reset], which calls that
    overlap interleave: the block that lets a call pass an enabled
    breaker, [onSuccess], [onFailure] and [reset]. *)
Inductive block (cb : CircuitBreaker.t) : CircuitBreaker.t -> Prop :=
  | block_pass_gate (now : Z) (cb1 : CircuitBreaker.t) :
      CircuitBreaker.pass_gate cb now = Some cb1 -> block cb cb1
  | block_onSuccess :
      block cb (CircuitBreaker.onSuccess cb).1
  | block_onFailure (now : Z) :
      block cb (CircuitBreaker.onFailure cb now).1
  | block_reset :
      block cb (CircuitBreaker.reset cb).

(** The breakers that any interleaving of such blocks leads to from a new
    one with the configuration [cfg]. *)
Inductive reachable_by_blocks (cfg : CircuitBreaker.Config) : CircuitBreaker.t -> Prop :=
  | by_blocks_new : reachable_by_blocks cfg (CircuitBreaker.new cfg)
  | by_blocks_step (cb cb' : CircuitBreaker.t) :
      reachable_by_blocks cfg cb -> block cb cb' -> reachable_by_blocks cfg cb'.

(** * Properties *)

(** ** Backoff delay *)

Lemma DBL_OVERFLOW_pow : DBL_OVERFLOW = 2 ^ 1024.
Proof. reflexivity. Qed.

(** C7. Without jitter the delay is [min(baseDelay * 2^attempt, maxDelay)]
    for every attempt number, every [baseDelay > 0] and every finite
    [maxDelay >= baseDelay]; where the product overflows, the result is
    [maxDelay]. *)
Theorem calculateDelay_without_jitter
    (attempt : nat) (baseDelay maxDelay random : Z) :
  0 < baseDelay ->
  baseDelay <= maxDelay ->
  maxDelay < DBL_OVERFLOW ->
  calculateDelay attempt baseDelay maxDelay false random
  = Fin (Z.min (baseDelay * 2 ^ Z.of_nat attempt) maxDelay)
  /\ (DBL_OVERFLOW <= baseDelay * 2 ^ Z.of_nat attempt ->
      calculateDelay attempt baseDelay maxDelay false random = Fin maxDelay).
Proof.
  intros Hbase Hmax Hfinite.
  assert (Hpow : 0 < 2 ^ Z.of_nat attempt) by (apply Z.pow_pos_nonneg; lia).
  assert (Hcap : DBL_OVERFLOW <= baseDelay * 2 ^ Z.of_nat attempt ->
                 calculateDelay attempt baseDelay maxDelay false random = Fin maxDelay).
  { intros Hover. unfold calculateDelay, Math_pow2; cbn [negb].
    destruct (Z.of_nat attempt <? 1024); cbn [mul Math_min].
    - destruct (Z.leb_spec DBL_OVERFLOW (baseDelay * 2 ^ Z.of_nat attempt)); [reflexivity | lia].
    - destruct (Z.ltb_spec 0 baseDelay); [reflexivity | lia]. }
  split; [| exact Hcap].
  destruct (Z_lt_le_dec (baseDelay * 2 ^ Z.of_nat attempt) DBL_OVERFLOW) as [Hin | Hover].
  - unfold calculateDelay, Math_pow2; cbn [negb].
    destruct (Z.ltb_spec (Z.of_nat attempt) 1024) as [Hlt | Hge]; cbn [mul Math_min].
    + destruct (Z.leb_spec DBL_OVERFLOW (baseDelay * 2 ^ Z.of_nat attempt)); [lia |].
      destruct (Z.leb_spec (baseDelay * 2 ^ Z.of_nat attempt) (- DBL_OVERFLOW)); [nia | reflexivity].
    + exfalso.
      assert (2 ^ 1024 <= 2 ^ Z.of_nat attempt) by (apply Z.pow_le_mono_r; lia).
      rewrite DBL_OVERFLOW_pow in Hin. nia.
  - rewrite (Hcap Hover). f_equal. lia.
Qed.

Lemma calculateDelay_without_jitter_witness :
  calculateDelay 2000 1000 30000 false 0
  = Fin (Z.min (1000 * 2 ^ Z.of_nat 2000) 30000)
  /\ (DBL_OVERFLOW <= 1000 * 2 ^ Z.of_nat 2000 ->
      calculateDelay 2000 1000 30000 false 0 = Fin 30000).
Proof.
  apply (calculateDelay_without_jitter 2000 1000 30000 0).
  - lia.
  - lia.
  - rewrite DBL_OVERFLOW_pow. vm_compute. reflexivity.
Defined.

(** ** Retry classification *)

(** C8. An error named [TimeoutError] or [AbortError] is retryable
    whatever the retryable sets hold and whatever status or code the
    error carries. *)
Theorem isRetryableError_timeout_or_abort
    (error : object) (retryableStatuses retryableErrors : list value) :
  get error "name" = VStr "TimeoutError" \/ get error "name" = VStr "AbortError" ->
  isRetryableError error retryableStatuses retryableErrors = true.
Proof.
  intros Hname. unfold isRetryableError.
  destruct (truthy (get error "status") && includes retryableStatuses (get error "status"));
    [reflexivity |].
  destruct (truthy (get error "code") && includes retryableErrors (get error "code"));
    [reflexivity |].
  destruct Hname as [-> | ->]; reflexivity.
Qed.

Lemma isRetryableError_timeout_or_abort_witness :
  isRetryableError
    (<["status" := VNum 404]> (<["code" := VStr "EOTHER"]>
       (<["name" := VStr "TimeoutError"]> (new_Error "Request timeout after 30000ms"))))
    [] [] = true.
Proof.
  apply isRetryableError_timeout_or_abort.
  left. vm_compute. reflexivity.
Defined.

(** ** The circuit breaker *)

Section CircuitBreakerProperties.

Import CircuitBreaker.

(** Case analysis over the conditions of [execute]. *)
Ltac breaker_cases :=
  unfold execute, pass_gate, settle, onSuccess, onFailure, is_enabled, ge, new, reset in *;
  cbn [fst snd config state failureCount successCount lastFailureTime negb] in *;
  repeat (case_bool_decide || case_match);
  simplify_eq/=;
  rewrite ?Z.leb_le, ?Z.leb_gt in *;
  try match goal with
      | H : ?b = true, H' : negb ?b = true |- _ => rewrite H in H'; discriminate H'
      end.

Lemma execute_config {A : Type} (cb : t) (now : Z)
    (fn : list event * completion A) (now' : Z) :
  config (execute cb now fn now').1.1 = config cb.
Proof. breaker_cases; reflexivity. Qed.

Lemma reachable_config (cfg : Config) (cb : t) :
  reachable cfg cb -> config cb = cfg.
Proof.
  induction 1 as [| cb cb' _ IH Hstep]; [reflexivity |].
  destruct Hstep; [rewrite execute_config | |]; assumption.
Qed.

(** C10. On an enabled breaker every call whose operation is run and
    fails sets [lastFailureTime] to the clock reading of the failure, also
    when the failure count stays below the threshold and the state does
    not change. *)
Theorem failed_execute_sets_lastFailureTime {A : Type}
    (cb cb1 : t) (now : Z) (calls : list event) (error : exn) (now' : Z) :
  is_enabled (config cb) = true ->
  pass_gate cb now = Some cb1 ->
  let cb' := (execute cb now (calls, Throw error : completion A) now').1.1 in
  lastFailureTime cb' = Some now'
  /\ (ge (failureCount cb + 1) (failureThreshold (config cb)) = false ->
      state cb' = state cb1 /\ lastFailureTime cb' = Some now').
Proof.
  intros Henabled Hpass cb'. subst cb'.
  assert (Hsame : failureCount cb1 = failureCount cb /\ config cb1 = config cb).
  { revert Hpass. unfold pass_gate. repeat case_match; intros; simplify_eq/=; auto. }
  destruct Hsame as [Hfc Hcfg].
  unfold execute. rewrite Henabled, Hpass. cbn [negb].
  unfold settle, onFailure. cbn [snd]. rewrite Hfc, Hcfg.
  repeat case_match; simplify_eq/=;
    (split; [reflexivity | intros ?; try discriminate; split; reflexivity]).
Qed.

Lemma failed_execute_sets_lastFailureTime_witness :
  lastFailureTime
    (execute (new test_breaker_config) 5 failingFn 7).1.1 = Some 7
  /\ (ge (failureCount (new test_breaker_config) + 1)
         (failureThreshold (config (new test_breaker_config))) = false ->
      state (execute (new test_breaker_config) 5 failingFn 7).1.1
      = state (new test_breaker_config)
      /\ lastFailureTime
           (execute (new test_breaker_config) 5 failingFn 7).1.1 = Some 7).
Proof.
  apply (failed_execute_sets_lastFailureTime
           (new test_breaker_config) (new test_breaker_config) 5 [] _ 7).
  - reflexivity.
  - reflexivity.
Defined.

Lemma run_closed_successes {A : Type} (calls : list (call A)) (cb : t) :
  is_enabled (config cb) = true ->
  state cb = closed ->
  all_succeed calls ->
  state (run cb calls).1 = closed
  /\ config (run cb calls).1 = config cb
  /\ successCount (run cb calls).1 = successCount cb + Z.of_nat (length calls).
Proof.
  revert cb. induction calls as [| c calls IH]; intros cb Henabled Hclosed Hall.
  - cbn. repeat split; [assumption | lia].
  - apply Forall_cons in Hall as [Hc Hall].
    cbn [run].
    destruct (execute cb (at_entry c) (fn c) (at_catch c)) as [[cb1 evs] r] eqn:Hexec.
    destruct (run cb1 calls) as [cb2 evs'] eqn:Hrun. cbn [fst].
    assert (H1 : state cb1 = closed /\ config cb1 = config cb
                 /\ successCount cb1 = successCount cb + 1).
    { revert Hexec Hc. destruct (fn c) as [inner [result | error]]; cbn [snd returns];
        [| intros ? ?; discriminate].
      intros Hexec _. clear IH Hrun. breaker_cases; auto; congruence. }
    destruct H1 as (Hst & Hcfg & Hsc).
    specialize (IH cb1). rewrite Hrun in IH. cbn [fst] in IH.
    destruct IH as (? & ? & ?); [congruence | assumption | assumption |].
    repeat split; [assumption | congruence |]. rewrite length_cons. lia.
Qed.

(** C9, as the specification states it, fails: it has no condition on
    [enabled]. A disabled breaker is closed, and its successful calls
    leave [successCount] at 0. *)
Lemma disabled_breaker_does_not_count_successes :
  let cb := new disabled_breaker_config in
  state cb = closed
  /\ successCount cb = 0
  /\ successCount (execute cb 0 succeedingFn 0).1.1 = 0
  /\ successCount (execute cb 0 succeedingFn 0).1.1 <> successCount cb + 1
  /\ snap_successCount
       (getState (run cb [call_at 0 succeedingFn; call_at 1 succeedingFn;
                          call_at 2 succeedingFn]).1) = 0.
Proof.
  vm_compute. repeat split; discriminate.
Qed.

(** C9, amended. In the closed state of an enabled breaker a successful
    call adds 1 to [successCount] and leaves the state closed, so a run of
    successes makes the [successCount] that [getState] reports pass every
    bound. A call of [execute] on an enabled breaker
    leaves [successCount] different from its value plus one only when it
    is rejected, when its operation fails, when it enters half-open from
    open, or when it closes the circuit from half-open. *)
Theorem closed_success_increments_successCount {A : Type} (cb : t) :
  is_enabled (config cb) = true ->
  state cb = closed ->
  (forall (now : Z) (inner : list event) (result : A) (now' : Z),
      let cb' := (execute cb now (inner, Return result) now').1.1 in
      state cb' = closed /\ successCount cb' = successCount cb + 1)
  /\ (forall calls : list (call A),
        all_succeed calls ->
        state (run cb calls).1 = closed
        /\ successCount (run cb calls).1 = successCount cb + Z.of_nat (length calls))
  /\ (forall (result : A) (bound : Z),
        exists calls : list (call A),
          all_succeed calls
          /\ bound < snap_successCount (getState (run cb calls).1))
  /\ (forall (cb0 : t) (now : Z) (fn : list event * completion A) (now' : Z),
        is_enabled (config cb0) = true ->
        let cb' := (execute cb0 now fn now').1.1 in
        successCount cb' = successCount cb0 + 1
        \/ (pass_gate cb0 now = None /\ cb' = cb0)
        \/ (returns fn.2 = false /\ successCount cb' = 0)
        \/ (state cb0 = open /\ exists cb1, pass_gate cb0 now = Some cb1
             /\ state cb1 = half_open /\ successCount cb1 = 0)
        \/ (state cb0 = half_open /\ state cb' = closed /\ successCount cb' = 0)).
Proof.
  intros Henabled Hclosed. split; [| split; [| split]].
  - intros now inner result now' cb'. subst cb'.
    breaker_cases; auto; congruence.
  - intros calls Hall.
    destruct (run_closed_successes calls cb Henabled Hclosed Hall) as (? & _ & ?).
    auto.
  - intros result bound.
    set (n := Z.to_nat (bound - successCount cb + 1)).
    set (c := {| at_entry := 0; fn := ([], Return result); at_catch := 0 |}).
    exists (replicate n c).
    assert (Hall : all_succeed (replicate n c)).
    { apply Forall_replicate. reflexivity. }
    split; [exact Hall |].
    cbn [getState snap_successCount].
    destruct (run_closed_successes _ cb Henabled Hclosed Hall) as (_ & _ & ->).
    rewrite length_replicate. lia.
  - intros cb0 now [inner [result | error]] now' Hen cb'; subst cb';
      clear Henabled Hclosed; breaker_cases;
      first [ by left
            | by (right; left)
            | by (right; right; left)
            | right; right; right; left; by eauto
            | by (right; right; right; right) ].
Qed.

Lemma closed_success_increments_successCount_witness :
  state (execute (new test_breaker_config) 0 succeedingFn 0).1.1 = closed
  /\ successCount (execute (new test_breaker_config) 0 succeedingFn 0).1.1 = 1.
Proof.
  refine (proj1 (closed_success_increments_successCount
                   (new test_breaker_config) _ _) 0 [] "ok"%string 0);
    reflexivity.
Defined.

(** C6. In every breaker that calls of [execute] (with any operation and
    any clock readings), [getState] and [reset] lead to from a new one, one
    of [failureCount] and [successCount] is 0. *)
Theorem counters_never_both_nonzero (cfg : Config) (cb : t) :
  reachable cfg cb ->
  failureCount cb = 0 \/ successCount cb = 0.
Proof.
  induction 1 as [| cb cb' _ IH Hstep].
  - left. reflexivity.
  - destruct Hstep as [A now fn now' | |].
    + destruct fn as [inner [result | error]];
        breaker_cases; auto.
    + exact IH.
    + left. reflexivity.
Qed.

Lemma counters_never_both_nonzero_witness :
  failureCount (execute (new test_breaker_config) 5 failingFn 7).1.1 = 0
  \/ successCount (execute (new test_breaker_config) 5 failingFn 7).1.1 = 0.
Proof.
  apply (counters_never_both_nonzero test_breaker_config).
  apply (reachable_step _ (new test_breaker_config)).
  - apply reachable_new.
  - apply (step_execute (new test_breaker_config) 5 failingFn 7).
Defined.

(** A sequence of [execute] calls leads from a reachable breaker to a
    reachable breaker. *)
Lemma run_reachable {A : Type} (cfg : Config) (calls : list (call A)) (cb : t) :
  reachable cfg cb -> reachable cfg (run cb calls).1.
Proof.
  revert cb. induction calls as [| c calls IH]; intros cb Hreach; [exact Hreach |].
  cbn [run].
  pose proof (step_execute cb (at_entry c) (fn c) (at_catch c)) as Hstep.
  destruct (execute cb (at_entry c) (fn c) (at_catch c)) as [[cb1 evs] r].
  specialize (IH cb1 (reachable_step _ _ _ Hreach Hstep)).
  destruct (run cb1 calls) as [cb2 evs']. exact IH.
Qed.

(** C1, as the specification states it, fails: after two failures the
    test breaker is open; the probe at time 200 succeeds, which leaves
    the breaker half-open with [failureCount] 0 and [successCount] 1; the
    failure that follows resets [successCount] but counts as the first
    failure of two, and the state stays half-open. *)
Lemma half_open_failure_after_success_stays_half_open :
  let cb := (run (new test_breaker_config)
               [call_at 0 failingFn; call_at 1 failingFn; call_at 200 succeedingFn]).1 in
  let cb' := (execute cb 201 failingFn 202).1.1 in
  reachable test_breaker_config cb
  /\ is_enabled (config cb) = true
  /\ state cb = half_open
  /\ successCount cb = 1
  /\ state cb' = half_open
  /\ state cb' <> open
  /\ successCount cb' = 0.
Proof.
  split; [apply run_reachable, reachable_new |].
  vm_compute. repeat split; discriminate.
Qed.

(** C1, amended. A failed call on an enabled half-open breaker, whatever
    its counters, resets [successCount], records the time of the failure
    and adds 1 to [failureCount]; the state becomes open exactly when the
    new [failureCount] reaches [failureThreshold], and stays half-open
    otherwise. *)
Theorem half_open_failure {A : Type} (cb : t)
    (now : Z) (inner : list event) (error : exn) (now' : Z) :
  is_enabled (config cb) = true ->
  state cb = half_open ->
  let cb' := (execute cb now (inner, Throw error : completion A) now').1.1 in
  successCount cb' = 0
  /\ lastFailureTime cb' = Some now'
  /\ failureCount cb' = failureCount cb + 1
  /\ state cb' = (if ge (failureCount cb + 1) (failureThreshold (config cb))
                 then open else half_open)
  /\ (state cb' = open
      <-> ge (failureCount cb + 1) (failureThreshold (config cb)) = true).
Proof.
  intros Henabled Hhalf cb'. subst cb'.
  unfold execute, pass_gate. rewrite Henabled. cbn [negb].
  rewrite bool_decide_eq_false_2 by (rewrite Hhalf; discriminate).
  unfold settle, onFailure. cbn [snd].
  destruct (ge (failureCount cb + 1) (failureThreshold (config cb))) eqn:Hge.
  - rewrite bool_decide_eq_false_2 by (rewrite Hhalf; discriminate).
    cbn. repeat split; reflexivity.
  - cbn. rewrite Hhalf. repeat split; try reflexivity; discriminate.
Qed.

Lemma half_open_failure_witness :
  let cb := (run (new test_breaker_config)
               [call_at 0 failingFn; call_at 1 failingFn; call_at 200 succeedingFn]).1 in
  let cb' := (execute cb 201 failingFn 202).1.1 in
  successCount cb' = 0
  /\ lastFailureTime cb' = Some 202
  /\ failureCount cb' = failureCount cb + 1
  /\ state cb' = (if ge (failureCount cb + 1) (failureThreshold (config cb))
                 then open else half_open)
  /\ (state cb' = open
      <-> ge (failureCount cb + 1) (failureThreshold (config cb)) = true).
Proof.
  intros cb.
  apply (half_open_failure cb 201 [] (Exn_Error (new_Error "Fail")) 202).
  - reflexivity.
  - reflexivity.
Defined.


(** The failure that reaches the threshold opens the breaker and calls
    the hook once. *)
Lemma run_failures_open {A : Type} (failures : Z) (calls : list (call A)) (cb : t) :
  is_enabled (config cb) = true ->
  failureThreshold (config cb) = Some failures ->
  state cb = closed ->
  all_fail calls ->
  calls <> [] ->
  failureCount cb + Z.of_nat (length calls) = failures ->
  state (run cb calls).1 = open
  /\ List.filter is_onCircuitOpen (run cb calls).2
     = optional_call (onCircuitOpen (config cb)) Ev_onCircuitOpen.
Proof.
  revert cb. induction calls as [| c calls IH];
    intros cb Henabled Hthreshold Hclosed Hall Hne Hlen; [congruence |].
  apply Forall_cons in Hall as [Hc Hall]. rewrite length_cons in *.
  cbn [run].
  destruct (execute cb (at_entry c) (fn c) (at_catch c)) as [[cb1 evs] r] eqn:Hexec.
  destruct calls as [| c' calls'].
  - cbn [run fst snd length] in *. rewrite app_nil_r.
    revert Hexec Hc. destruct (fn c) as [inner [result | error]]; cbn [fst snd returns];
      [intros ? ?; discriminate |].
    intros Hexec _. clear IH.
    breaker_cases; try congruence; try lia.
    split; [reflexivity |]. cbn. destruct (onCircuitOpen (config cb)); reflexivity.
  - assert (H1 : state cb1 = closed /\ config cb1 = config cb
                 /\ failureCount cb1 = failureCount cb + 1
                 /\ evs = [Ev_fn (fn c).1]).
    { revert Hexec Hc. destruct (fn c) as [inner [result | error]]; cbn [fst snd returns];
        [intros ? ?; discriminate |].
      intros Hexec _. clear IH. rewrite length_cons in *.
      breaker_cases; auto; try congruence; lia. }
    destruct H1 as (Hst & Hcfg & Hfc & ->).
    specialize (IH cb1). destruct (run cb1 (c' :: calls')) as [cb2 evs'].
    cbn [fst snd] in *. rewrite Hcfg in IH.
    apply IH; [assumption | assumption | assumption | assumption | discriminate | lia].
Qed.





End CircuitBreakerProperties.

(** ** The retry loop *)

Section RetryLoopProperties.

Import HttpWrapper.

Variable attemptFn : nat -> attempt_result.
Variable random : nat -> Z.
Variable cfg : Config.

(** The loop of [request] as the source writes it: the condition
    [attempt <= maxRetries], then the body. *)
Lemma retry_from_unfold (attempt : nat) (lastError : exn) :
  retry_from attemptFn random cfg attempt lastError
  = if Z.of_nat attempt <=? maxRetries cfg then
      match attemptFn attempt with
      | Attempt_ok response => ([Ev_fetchWithTimeout attempt], Return response)
      | Attempt_failed error =>
          if Z.of_nat attempt =? maxRetries cfg then
            ([Ev_fetchWithTimeout attempt], Throw (Exn_Error error))
          else if negb (isRetryableError error (retryableStatuses cfg)
                          (retryableErrors cfg)) then
            ([Ev_fetchWithTimeout attempt], Throw (Exn_Error error))
          else
            let delay :=
              calculateDelay attempt (baseDelay cfg) (maxDelay cfg) (jitter cfg)
                (random attempt) in
            let (later, result) :=
              retry_from attemptFn random cfg (S attempt) (Exn_Error error) in
            (Ev_fetchWithTimeout attempt
               :: optional_call (onRetry cfg)
                    (fun hook => Ev_onRetry hook (Z.of_nat attempt + 1) error)
               ++ Ev_sleep delay :: later,
             result)
      end
    else ([], Throw lastError).
Proof.
  unfold retry_from.
  destruct (Z.leb_spec (Z.of_nat attempt) (maxRetries cfg)) as [Hle | Hgt].
  - replace (Z.to_nat (maxRetries cfg + 1 - Z.of_nat attempt))
      with (S (Z.to_nat (maxRetries cfg + 1 - Z.of_nat (S attempt)))) by lia.
    reflexivity.
  - replace (Z.to_nat (maxRetries cfg + 1 - Z.of_nat attempt)) with 0%nat by lia.
    reflexivity.
Qed.


(** C5, amended. With [maxRetries = 2] and a first attempt that fails
    with an error that is not retryable, the loop makes that one attempt
    and nothing else, neither a call of [onRetry] nor a sleep, and throws
    the error of the attempt as it is. *)
Theorem non_retryable_error_stops_the_loop (error : object) :
  maxRetries cfg = 2 ->
  attemptFn 0%nat = Attempt_failed error ->
  isRetryableError error (retryableStatuses cfg) (retryableErrors cfg) = false ->
  operation attemptFn random cfg
  = ([Ev_fetchWithTimeout 0], Throw (Exn_Error error))
  /\ List.filter is_onRetry (operation attemptFn random cfg).1 = []
  /\ List.filter is_sleep (operation attemptFn random cfg).1 = [].
Proof.
  intros Hmax H0 Hr0.
  assert (Hop : operation attemptFn random cfg
                = ([Ev_fetchWithTimeout 0], Throw (Exn_Error error))).
  { unfold operation. rewrite (retry_from_unfold 0), H0, Hr0, Hmax. reflexivity. }
  rewrite Hop. repeat split.
Qed.

End RetryLoopProperties.

(** ** Scenarios of the retry loop *)

Section RetryLoopScenarios.

Import HttpWrapper.


Lemma non_retryable_error_stops_the_loop_witness :
  let cfg := spread DEFAULT_CONFIG options_nothing_retryable in
  let attemptFn (attempt : nat) :=
    fetchWithTimeout (transport_of [response_404] attempt) (timeout cfg) in
  operation attemptFn (fun _ => 0) cfg
  = ([Ev_fetchWithTimeout 0], Throw (Exn_Error error_404))
  /\ List.filter is_onRetry (operation attemptFn (fun _ => 0) cfg).1 = []
  /\ List.filter is_sleep (operation attemptFn (fun _ => 0) cfg).1 = [].
Proof.
  intros cfg attemptFn.
  apply (non_retryable_error_stops_the_loop attemptFn (fun _ => 0) cfg error_404);
    vm_compute; reflexivity.
Defined.

(** C5, as the specification states it, fails in its last part: the error
    thrown for a 404 response with nothing retryable is the error of the
    attempt, whose properties are [message], [name] and [status]; none of
    them is the attempt count 1. *)
Lemma surfaced_error_reports_no_attempt_count :
  let cfg := spread DEFAULT_CONFIG options_nothing_retryable in
  let attemptFn (attempt : nat) :=
    fetchWithTimeout (transport_of [response_404] attempt) (timeout cfg) in
  maxRetries cfg = 2
  /\ isRetryableError error_404 (retryableStatuses cfg) (retryableErrors cfg) = false
  /\ (operation attemptFn (fun _ => 0) cfg).2 = Throw (Exn_Error error_404)
  /\ dom error_404 = ({["message"; "name"; "status"]} : gset string)
  /\ reports_attempt_count (Exn_Error error_404) 1 = false.
Proof.
  repeat split; vm_compute; reflexivity.
Qed.

End RetryLoopScenarios.

(** ** Configuration *)

Section ConfigurationProperties.

Import HttpWrapper.







End ConfigurationProperties.

(** * Further properties *)

(** ** Backoff delay *)

(** The capped exponential term of [calculateDelay]. *)
Lemma exponentialDelay_value (attempt : nat) (baseDelay maxDelay : Z) :
  0 < baseDelay ->
  maxDelay < DBL_OVERFLOW ->
  Math_min (mul baseDelay (Math_pow2 attempt)) maxDelay
  = Fin (Z.min (baseDelay * 2 ^ Z.of_nat attempt) maxDelay).
Proof.
  intros Hbase Hfinite.
  assert (Hpow : 0 < 2 ^ Z.of_nat attempt) by (apply Z.pow_pos_nonneg; lia).
  unfold Math_pow2.
  destruct (Z.ltb_spec (Z.of_nat attempt) 1024) as [Hlt | Hge]; cbn [mul Math_min].
  - destruct (Z.leb_spec DBL_OVERFLOW (baseDelay * 2 ^ Z.of_nat attempt)) as [Hover | Hin].
    + cbn [Math_min]. f_equal. lia.
    + destruct (Z.leb_spec (baseDelay * 2 ^ Z.of_nat attempt) (- DBL_OVERFLOW));
        [nia | reflexivity].
  - destruct (Z.ltb_spec 0 baseDelay); [| lia]. cbn [Math_min]. f_equal.
    assert (2 ^ 1024 <= 2 ^ Z.of_nat attempt) by (apply Z.pow_le_mono_r; lia).
    rewrite DBL_OVERFLOW_pow in Hfinite. nia.
Qed.

(** Rounding the product of a draw below 1 and an integer [c] up to
    [2^53] stays between 0 and [c]. *)
Lemma round_to_double_bound (p c : Z) :
  0 <= p ->
  0 < c <= 2 ^ 53 ->
  p < c * 2 ^ 53 ->
  0 <= round_to_double p <= c * 2 ^ 53.
Proof.
  intros Hp Hc Hlt. unfold round_to_double.
  rewrite (Z.abs_eq p) by exact Hp.
  destruct (Z.leb_spec (Z.log2 p + 1) 53) as [Hsmall | Hbig]; [lia |].
  assert (Hpos : 0 < p).
  { destruct (Z.eq_dec p 0) as [-> | ?]; [cbn in Hbig; lia | lia]. }
  rewrite (Z.sgn_pos p Hpos), Z.mul_1_l.
  set (shift := Z.log2 p + 1 - 53).
  assert (Hshift : 0 < shift <= 53).
  { split; [subst shift; lia |].
    assert (Z.log2 p < 106); [| subst shift; lia].
    apply Z.log2_lt_pow2; [exact Hpos |].
    assert (c * 2 ^ 53 <= 2 ^ 53 * 2 ^ 53) by nia.
    change (2 ^ 106) with (2 ^ 53 * 2 ^ 53). lia. }
  assert (Hpow : 0 < 2 ^ shift) by (apply Z.pow_pos_nonneg; lia).
  set (M := c * 2 ^ (53 - shift)).
  assert (HM : c * 2 ^ 53 = M * 2 ^ shift).
  { subst M. rewrite <- Z.mul_assoc, <- Z.pow_add_r by lia. f_equal. f_equal. lia. }
  assert (Hq : 0 <= p / 2 ^ shift < M).
  { split; [apply Z.div_pos; lia |].
    apply Z.div_lt_upper_bound; [exact Hpow |]. lia. }
  set (q := p / 2 ^ shift) in *.
  assert (Hq' : q <= (if (2 ^ (shift - 1) <? p mod 2 ^ shift)
                         || ((p mod 2 ^ shift =? 2 ^ (shift - 1)) && Z.odd q)
                      then q + 1 else q) <= q + 1).
  { destruct (_ || _); lia. }
  rewrite HM. nia.
Qed.

(** The jittered value of a term [z] up to [2^53] lies between 0 and
    [z]. *)
Lemma Math_floor_random_mul_bounded (k z : Z) :
  0 <= k < RANDOM_DENOM ->
  0 <= z <= 2 ^ 53 ->
  exists d : Z, Math_floor_random_mul k (Fin z) = Fin d /\ 0 <= d <= z.
Proof.
  intros Hk Hz.
  assert (Hden : RANDOM_DENOM = 2 ^ 53) by reflexivity.
  assert (Hover : 2 ^ 53 < DBL_OVERFLOW).
  { rewrite DBL_OVERFLOW_pow. apply Z.pow_lt_mono_r; lia. }
  assert (Hround : 0 <= round_to_double (k * z) <= z * 2 ^ 53).
  { destruct (Z.eq_dec z 0) as [-> | Hnz].
    - rewrite Z.mul_0_r. change (round_to_double 0) with 0. lia.
    - apply round_to_double_bound; [nia | lia | nia]. }
  unfold Math_floor_random_mul. cbn zeta.
  destruct (Z.leb_spec (DBL_OVERFLOW * RANDOM_DENOM) (round_to_double (k * z)));
    [nia |].
  destruct (Z.leb_spec (round_to_double (k * z)) (- (DBL_OVERFLOW * RANDOM_DENOM)));
    [nia |].
  eexists. split; [reflexivity |]. rewrite Hden. split.
  - apply Z.div_pos; lia.
  - apply Z.div_le_upper_bound; lia.
Qed.

(** X1. With jitter, for a draw of [Math.random()] and a configuration
    with [0 < baseDelay] and [0 <= maxDelay <= 2^53], the delay, computed
    with the rounding of the double product, is an integer between 0 and
    the capped exponential term, so never above [maxDelay]. *)
Theorem calculateDelay_with_jitter_bounds
    (attempt : nat) (baseDelay maxDelay random : Z) :
  0 < baseDelay ->
  0 <= maxDelay <= 2 ^ 53 ->
  0 <= random < RANDOM_DENOM ->
  exists d : Z,
    calculateDelay attempt baseDelay maxDelay true random = Fin d
    /\ 0 <= d
    /\ d <= Z.min (baseDelay * 2 ^ Z.of_nat attempt) maxDelay
    /\ d <= maxDelay.
Proof.
  intros Hbase Hmax Hrandom.
  assert (Hpow : 0 < 2 ^ Z.of_nat attempt) by (apply Z.pow_pos_nonneg; lia).
  assert (Hfinite : maxDelay < DBL_OVERFLOW).
  { rewrite DBL_OVERFLOW_pow.
    assert (2 ^ 53 < 2 ^ 1024) by (apply Z.pow_lt_mono_r; lia). lia. }
  unfold calculateDelay. cbn [negb].
  rewrite exponentialDelay_value by assumption.
  set (cap := Z.min (baseDelay * 2 ^ Z.of_nat attempt) maxDelay).
  assert (Hcap : 0 <= cap <= 2 ^ 53) by (subst cap; nia).
  destruct (Math_floor_random_mul_bounded random cap Hrandom Hcap) as (d & Hd & Hbound).
  exists d. split; [exact Hd |]. subst cap. lia.
Qed.

Lemma calculateDelay_with_jitter_bounds_witness :
  exists d : Z,
    calculateDelay 0 3 3 true 6004799503160661 = Fin d
    /\ 0 <= d
    /\ d <= Z.min (3 * 2 ^ Z.of_nat 0) 3
    /\ d <= 3.
Proof.
  apply (calculateDelay_with_jitter_bounds 0 3 3 6004799503160661).
  - lia.
  - split; vm_compute; discriminate.
  - split; vm_compute; [discriminate | reflexivity].
Defined.

(** The double product rounds up where the exact product would floor
    lower: the draw [6004799503160661 / 2^53] of a delay 3 gives 2. *)
Example calculateDelay_rounds_the_product :
  calculateDelay 0 3 3 true 6004799503160661 = Fin 2.
Proof. vm_compute. reflexivity. Qed.

(** X2. Without jitter, for [0 < baseDelay <= maxDelay] and a finite
    [maxDelay], the delay of attempt 0 is [baseDelay] and the delay never
    decreases from one attempt to the next, staying between [baseDelay]
    and [maxDelay]. *)
Theorem calculateDelay_without_jitter_monotone
    (attempt : nat) (baseDelay maxDelay random random' : Z) :
  0 < baseDelay ->
  baseDelay <= maxDelay ->
  maxDelay < DBL_OVERFLOW ->
  calculateDelay 0 baseDelay maxDelay false random = Fin baseDelay
  /\ exists d d' : Z,
       calculateDelay attempt baseDelay maxDelay false random = Fin d
       /\ calculateDelay (S attempt) baseDelay maxDelay false random' = Fin d'
       /\ baseDelay <= d /\ d <= d' /\ d' <= maxDelay.
Proof.
  intros Hbase Hmax Hfinite.
  assert (Hpow : 0 < 2 ^ Z.of_nat attempt) by (apply Z.pow_pos_nonneg; lia).
  assert (Hsucc : 2 ^ Z.of_nat (S attempt) = 2 * 2 ^ Z.of_nat attempt).
  { rewrite Nat2Z.inj_succ, Z.pow_succ_r by lia. reflexivity. }
  unfold calculateDelay. cbn [negb].
  rewrite !exponentialDelay_value by assumption.
  split.
  - f_equal. change (2 ^ Z.of_nat 0) with 1. lia.
  - eexists _, _. split; [reflexivity |]. split; [reflexivity |].
    rewrite Hsucc. nia.
Qed.

Lemma calculateDelay_without_jitter_monotone_witness :
  calculateDelay 0 1000 5000 false 0 = Fin 1000
  /\ exists d d' : Z,
       calculateDelay 2 1000 5000 false 0 = Fin d
       /\ calculateDelay 3 1000 5000 false 0 = Fin d'
       /\ 1000 <= d /\ d <= d' /\ d' <= 5000.
Proof.
  apply (calculateDelay_without_jitter_monotone 2 1000 5000 0 0).
  - lia.
  - lia.
  - rewrite DBL_OVERFLOW_pow. vm_compute. reflexivity.
Defined.

(** ** Retry classification and the transport *)

Lemma includes_In (xs : list value) (v : value) :
  includes xs v = true <-> In v xs.
Proof.
  unfold includes, strict_eq. rewrite existsb_exists. split.
  - intros (x & Hin & Heq). apply bool_decide_eq_true in Heq. subst x. exact Hin.
  - intros Hin. exists v. split; [exact Hin | apply bool_decide_eq_true; reflexivity].
Qed.

Lemma includes_incl (xs ys : list value) (v : value) :
  incl xs ys -> includes xs v = true -> includes ys v = true.
Proof. rewrite !includes_In. intros Hincl Hin. apply Hincl, Hin. Qed.

(** X3. Listing more statuses or more error codes never turns a
    retryable error into one that is not retried. *)
Theorem isRetryableError_monotone
    (error : object) (statuses statuses' codes codes' : list value) :
  incl statuses statuses' ->
  incl codes codes' ->
  isRetryableError error statuses codes = true ->
  isRetryableError error statuses' codes' = true.
Proof.
  intros Hs Hc. unfold isRetryableError.
  destruct (truthy (get error "status")); cbn [andb].
  - destruct (includes statuses (get error "status")) eqn:Hin.
    + rewrite (includes_incl _ _ _ Hs Hin). reflexivity.
    + destruct (includes statuses' (get error "status")); [reflexivity |].
      destruct (truthy (get error "code")); cbn [andb]; [| tauto].
      destruct (includes codes (get error "code")) eqn:Hin'.
      * rewrite (includes_incl _ _ _ Hc Hin'). reflexivity.
      * destruct (includes codes' (get error "code")); tauto.
  - destruct (truthy (get error "code")); cbn [andb]; [| tauto].
    destruct (includes codes (get error "code")) eqn:Hin'.
    + rewrite (includes_incl _ _ _ Hc Hin'). reflexivity.
    + destruct (includes codes' (get error "code")); tauto.
Qed.

Lemma isRetryableError_monotone_witness :
  isRetryableError error_503 [VNum 500; VNum 503] [VStr "ECONNRESET"] = true.
Proof.
  apply (isRetryableError_monotone error_503 [VNum 503] [VNum 500; VNum 503]
           [] [VStr "ECONNRESET"]).
  - intros v [<- | []]. right. left. reflexivity.
  - intros v [].
  - vm_compute. reflexivity.
Defined.

(** X4. An error whose [status] and [code] are missing or falsy (0, the
    empty string) and whose name is neither [AbortError] nor
    [TimeoutError] is not retryable, whatever the sets list: a status 0
    is not matched even when 0 is listed. *)
Theorem isRetryableError_falsy_status_and_code
    (error : object) (statuses codes : list value) :
  truthy (get error "status") = false ->
  truthy (get error "code") = false ->
  get error "name" <> VStr "AbortError" ->
  get error "name" <> VStr "TimeoutError" ->
  isRetryableError error statuses codes = false.
Proof.
  intros Hstatus Hcode Habort Htimeout. unfold isRetryableError.
  rewrite Hstatus, Hcode. cbn [andb]. unfold strict_eq.
  rewrite !bool_decide_eq_false_2 by assumption. reflexivity.
Qed.

Lemma isRetryableError_falsy_status_and_code_witness :
  isRetryableError (<["status" := VNum 0]> (new_Error "opaque"))
    [VNum 0; VUndefined] [VUndefined; VStr ""] = false.
Proof.
  apply isRetryableError_falsy_status_and_code.
  - vm_compute. reflexivity.
  - vm_compute. reflexivity.
  - vm_compute. discriminate.
  - vm_compute. discriminate.
Defined.

(** X5. No error that leaves [fetchWithTimeout] is named [AbortError]. *)
Theorem fetchWithTimeout_never_AbortError
    (raw : fetch_outcome) (timeout : Z) (error : object) :
  fetchWithTimeout raw timeout = Attempt_failed error ->
  get error "name" <> VStr "AbortError".
Proof.
  unfold fetchWithTimeout, strict_eq. destruct raw as [response | rejected].
  - destruct (negb (ok response)); [| discriminate].
    case_bool_decide as Hname.
    + intros [= <-]. unfold get, new_Error. by simplify_map_eq.
    + intros [= <-]. exact Hname.
  - case_bool_decide as Hname.
    + intros [= <-]. unfold get, new_Error. by simplify_map_eq.
    + intros [= <-]. exact Hname.
Qed.

Lemma fetchWithTimeout_never_AbortError_witness :
  get (<["name" := VStr "TimeoutError"]> (new_Error "Request timeout after 30000ms"))
    "name" <> VStr "AbortError".
Proof.
  apply (fetchWithTimeout_never_AbortError
           (Fetch_rejected (<["name" := VStr "AbortError"]> (new_Error "aborted")))
           30000).
  vm_compute. reflexivity.
Defined.

(** X6. When the [fetch] call is aborted, [fetchWithTimeout] throws a new
    error named [TimeoutError] that has neither a status nor a code, and
    the retry loop's classifier retries it whatever the sets list. For a
    timeout of magnitude up to [2^53] its message is
    [Request timeout after <timeout>ms]. *)
Theorem fetchWithTimeout_abort_is_retryable_timeout
    (rejected : object) (timeout : Z) (statuses codes : list value) :
  get rejected "name" = VStr "AbortError" ->
  exists error : object,
    fetchWithTimeout (Fetch_rejected rejected) timeout = Attempt_failed error
    /\ get error "name" = VStr "TimeoutError"
    /\ (- 2 ^ 53 <= timeout <= 2 ^ 53 ->
        get error "message"
        = VStr ("Request timeout after " +:+ pretty timeout +:+ "ms"))
    /\ get error "status" = VUndefined
    /\ get error "code" = VUndefined
    /\ isRetryableError error statuses codes = true.
Proof.
  intros Hname. eexists. unfold fetchWithTimeout, strict_eq.
  rewrite bool_decide_eq_true_2 by exact Hname.
  split; [reflexivity |].
  assert (Hget : forall k : string,
             get (<["name" := VStr "TimeoutError"]>
                    (new_Error ("Request timeout after " +:+ pretty timeout +:+ "ms"))) k
             = if decide (k = "name") then VStr "TimeoutError"
               else if decide (k = "message")
                    then VStr ("Request timeout after " +:+ pretty timeout +:+ "ms")
                    else VUndefined).
  { intros k. unfold get, new_Error. repeat case_decide; simplify_map_eq; reflexivity. }
  unfold isRetryableError. rewrite !Hget. cbn. repeat split.
Qed.

Lemma fetchWithTimeout_abort_is_retryable_timeout_witness :
  exists error : object,
    fetchWithTimeout
      (Fetch_rejected (<["code" := VStr "ABORT_ERR"]>
                         (<["name" := VStr "AbortError"]> (new_Error "aborted"))))
      30000 = Attempt_failed error
    /\ get error "name" = VStr "TimeoutError"
    /\ get error "message" = VStr "Request timeout after 30000ms"
    /\ get error "status" = VUndefined
    /\ get error "code" = VUndefined
    /\ isRetryableError error [] [] = true.
Proof.
  destruct (fetchWithTimeout_abort_is_retryable_timeout
              (<["code" := VStr "ABORT_ERR"]>
                 (<["name" := VStr "AbortError"]> (new_Error "aborted")))
              30000 [] [])
    as (error & Hthrow & Hname & Hmessage & Hstatus & Hcode & Hretry);
    [vm_compute; reflexivity |].
  exists error. repeat split; try assumption.
  rewrite Hmessage; [vm_compute; reflexivity |].
  split; vm_compute; discriminate.
Defined.

(** X7. For a response that is not [ok], [fetchWithTimeout] throws an
    error that carries the status of the response, and the classifier
    retries it exactly when that status is listed and is not 0; the error
    codes listed play no part. *)
Theorem fetchWithTimeout_http_error_classification
    (response : Response) (timeout : Z) (statuses codes : list value) :
  ok response = false ->
  exists error : object,
    fetchWithTimeout (Fetch_resolved response) timeout = Attempt_failed error
    /\ get error "status" = VNum (status response)
    /\ get error "message"
       = VStr ("HTTP " +:+ pretty (status response) +:+ ": " +:+ statusText response)
    /\ isRetryableError error statuses codes
       = negb (status response =? 0) && includes statuses (VNum (status response)).
Proof.
  intros Hok. unfold fetchWithTimeout, strict_eq. rewrite Hok. cbn [negb].
  set (message := ("HTTP " +:+ pretty (status response) +:+ ": "
                   +:+ statusText response)%string).
  set (error := <["status" := VNum (status response)]> (new_Error message)).
  assert (Hstatus : get error "status" = VNum (status response)).
  { unfold get, error, new_Error. by simplify_map_eq. }
  assert (Hcode : get error "code" = VUndefined).
  { unfold get, error, new_Error. by simplify_map_eq. }
  assert (Hname : get error "name" = VStr "Error").
  { unfold get, error, new_Error. by simplify_map_eq. }
  assert (Hmessage : get error "message" = VStr message).
  { unfold get, error, new_Error. by simplify_map_eq. }
  exists error. fold error.
  rewrite Hname, bool_decide_eq_false_2 by discriminate.
  split; [reflexivity |]. split; [exact Hstatus |]. split; [exact Hmessage |].
  unfold isRetryableError, strict_eq. rewrite Hstatus, Hcode, Hname.
  cbn [truthy andb].
  rewrite !bool_decide_eq_false_2 by discriminate.
  destruct (negb (status response =? 0) && includes statuses (VNum (status response)));
    reflexivity.
Qed.

Lemma fetchWithTimeout_http_error_classification_witness :
  exists error : object,
    fetchWithTimeout (Fetch_resolved response_503) 30000 = Attempt_failed error
    /\ get error "status" = VNum (status response_503)
    /\ get error "message"
       = VStr ("HTTP " +:+ pretty (status response_503) +:+ ": "
               +:+ statusText response_503)
    /\ isRetryableError error [VNum 503] []
       = negb (status response_503 =? 0) && includes [VNum 503] (VNum (status response_503)).
Proof.
  apply fetchWithTimeout_http_error_classification.
  reflexivity.
Defined.

(** X8. [fetchWithTimeout] returns a response exactly when the [fetch]
    call resolved with an [ok] response, and then returns that response. *)
Theorem fetchWithTimeout_returns_ok_responses
    (raw : fetch_outcome) (timeout : Z) (response : Response) :
  fetchWithTimeout raw timeout = Attempt_ok response
  <-> raw = Fetch_resolved response /\ ok response = true.
Proof.
  unfold fetchWithTimeout. split.
  - destruct raw as [r | rejected].
    + destruct (ok r) eqn:Hok; cbn [negb].
      * intros [= <-]. auto.
      * destruct (strict_eq _ _); discriminate.
    + destruct (strict_eq _ _); discriminate.
  - intros [-> Hok]. rewrite Hok. reflexivity.
Qed.

(** ** The circuit breaker: outcomes, invariants and partial configurations *)

Section CircuitBreakerFurtherProperties.

Import CircuitBreaker.

(** Case analysis over the conditions of [execute]. *)
Ltac execute_cases :=
  unfold execute, pass_gate, settle, onSuccess, onFailure, is_enabled, ge, new, reset,
    to_number in *;
  cbn [fst snd config state failureCount successCount lastFailureTime negb returns] in *;
  repeat (case_bool_decide || case_match);
  simplify_eq/=;
  rewrite ?Z.leb_le, ?Z.leb_gt in *;
  try match goal with
      | H : ?b = true, H' : negb ?b = true |- _ => rewrite H in H'; discriminate H'
      end.

(** Hooks that return normally make [execute_with_hooks] the [execute] of
    the other properties. *)
Lemma execute_with_hooks_normal {A : Type} (throws : callback -> option exn)
    (cb : t) (now : Z) (fn : list event * completion A) (now' : Z) :
  (forall hook : callback, throws hook = None) ->
  execute_with_hooks throws cb now fn now' = execute cb now fn now'.
Proof.
  intros Hnormal.
  assert (Hthrown : forall hooks : list event, thrown throws hooks = None).
  { intros hooks. unfold thrown.
    induction hooks as [| e hooks IH] using rev_ind; [reflexivity |].
    rewrite fold_left_app. cbn. destruct (hook_of e); [rewrite Hnormal |]; exact IH. }
  unfold execute_with_hooks, execute, settle.
  destruct (negb (is_enabled (config cb))); [reflexivity |].
  destruct (pass_gate cb now) as [cb1 |]; [| reflexivity].
  destruct fn as [inner [result | error]]; cbn [fst snd].
  - destruct (onSuccess cb1) as [cb2 hooks]. rewrite Hthrown. reflexivity.
  - destruct (onFailure cb1 now') as [cb2 hooks]. rewrite Hthrown. reflexivity.
Qed.

(** X9. [execute], with hooks that may throw, either rejects the call, on
    an enabled open breaker only, throwing its own error, invoking
    nothing and leaving the breaker as it was; or it invokes the
    operation once, then calls at most two hooks, and ends as the
    operation ends unless a hook it called has thrown, in which case it
    throws what the last such hook threw. It returns a result only if the
    operation returned it. *)
Theorem execute_propagates_outcome {A : Type} (throws : callback -> option exn)
    (cb : t) (now : Z) (fn : list event * completion A) (now' : Z) :
  let out := execute_with_hooks throws cb now fn now' in
  (out.2 = Throw (Exn_CircuitBreakerOpenError "Circuit breaker is OPEN")
   /\ out.1.2 = []
   /\ out.1.1 = cb
   /\ is_enabled (config cb) = true
   /\ state cb = open)
  \/ (exists hooks : list event,
        out.1.2 = Ev_fn fn.1 :: hooks
        /\ Forall (fun e => is_onCircuitOpen e || is_onCircuitClose e = true) hooks
        /\ (length hooks <= 2)%nat
        /\ out.2 = match thrown throws hooks with
                   | Some x => Throw x
                   | None => fn.2
                   end
        /\ (forall result : A, out.2 = Return result -> fn.2 = Return result)).
Proof.
  intros out. subst out. unfold execute_with_hooks.
  destruct (negb (is_enabled (config cb))) eqn:Henabled.
  { right. exists []. cbn. repeat split; auto. }
  apply negb_false_iff in Henabled.
  destruct (pass_gate cb now) as [cb1 |] eqn:Hgate.
  2:{ left. cbn. repeat split; [exact Henabled |].
      revert Hgate. unfold pass_gate. case_bool_decide; [auto | discriminate]. }
  right.
  assert (Hsuccess : forall c : t,
             (onSuccess c).2 = [] \/ exists hook, (onSuccess c).2 = [Ev_onCircuitClose hook]).
  { intros c. unfold onSuccess.
    repeat case_match; cbn; auto.
    destruct (onCircuitClose (config c)); cbn; eauto. }
  assert (Hfailure : forall (c : t) (n : Z),
             (onFailure c n).2 = [] \/ exists hook, (onFailure c n).2 = [Ev_onCircuitOpen hook]).
  { intros c n. unfold onFailure.
    repeat case_match; cbn; auto.
    destruct (onCircuitOpen (config c)); cbn; eauto. }
  destruct fn as [inner [result | error]]; cbn [fst snd].
  - destruct (onSuccess cb1) as [cb2 closing] eqn:Hs.
    pose proof (Hsuccess cb1) as Hclosing. rewrite Hs in Hclosing. cbn [snd] in Hclosing.
    destruct Hclosing as [-> | [hook ->]].
    + exists []. cbn. repeat split; auto; try discriminate.
    + unfold thrown at 1. cbn [fold_left hook_of].
      destruct (throws hook) as [x |] eqn:Hthrows.
      * destruct (onFailure cb2 now') as [cb3 opening] eqn:Hf.
        pose proof (Hfailure cb2 now') as Hopening. rewrite Hf in Hopening.
        cbn [snd] in Hopening.
        destruct Hopening as [-> | [hook' ->]].
        -- exists [Ev_onCircuitClose hook]. unfold thrown. cbn. rewrite Hthrows.
           repeat split; auto; try discriminate.
        -- exists [Ev_onCircuitClose hook; Ev_onCircuitOpen hook'].
           unfold thrown. cbn. rewrite Hthrows.
           destruct (throws hook'); cbn; repeat split; auto; try discriminate.
      * exists [Ev_onCircuitClose hook]. unfold thrown. cbn. rewrite Hthrows.
        repeat split; auto; try discriminate.
  - destruct (onFailure cb1 now') as [cb3 opening] eqn:Hf.
    pose proof (Hfailure cb1 now') as Hopening. rewrite Hf in Hopening.
    cbn [snd] in Hopening.
    destruct Hopening as [-> | [hook' ->]].
    + exists []. cbn. repeat split; auto; try discriminate.
    + exists [Ev_onCircuitOpen hook']. unfold thrown. cbn.
      destruct (throws hook'); cbn; repeat split; auto; try discriminate.
Qed.

(** X10. A disabled breaker invokes every operation and never changes:
    after any sequence of calls, failing or not, it is the breaker it
    was, and the calls made are the invocations of the operations. *)
Theorem disabled_breaker_never_changes {A : Type} (cb : t) (calls : list (call A)) :
  is_enabled (config cb) = false ->
  run cb calls = (cb, map (fun c => Ev_fn (fn c).1) calls)
  /\ Forall (fun c => (execute cb (at_entry c) (fn c) (at_catch c)).2 = (fn c).2) calls.
Proof.
  intros Hdisabled. split.
  - induction calls as [| c calls IH]; [reflexivity |].
    cbn [run map]. unfold execute at 1. rewrite Hdisabled. cbn [negb].
    rewrite IH. reflexivity.
  - apply Forall_forall. intros c _. unfold execute. rewrite Hdisabled. reflexivity.
Qed.

Lemma disabled_breaker_never_changes_witness :
  let cb := new {| enabled := Some false;
                   failureThreshold := None;
                   successThreshold := None;
                   timeout := None;
                   onCircuitOpen := None;
                   onCircuitClose := None |} in
  let calls := [call_at 0 failingFn; call_at 1 failingFn; call_at 2 failingFn] in
  run cb calls = (cb, map (fun c => Ev_fn (fn c).1) calls)
  /\ Forall (fun c => (execute cb (at_entry c) (fn c) (at_catch c)).2 = (fn c).2) calls.
Proof.
  intros cb calls. apply (disabled_breaker_never_changes cb calls). reflexivity.
Defined.

(** X11. In every reachable breaker both counters are at least 0, and
    [lastFailureTime] is set whenever [failureCount] is not 0 or the
    state is not closed: an open breaker never computes its waiting time
    from [null]. *)
Theorem reachable_counters_and_lastFailureTime (cfg : Config) (cb : t) :
  reachable cfg cb ->
  0 <= failureCount cb
  /\ 0 <= successCount cb
  /\ (failureCount cb <> 0 \/ state cb <> closed -> is_Some (lastFailureTime cb)).
Proof.
  induction 1 as [| cb cb' _ IH Hstep].
  - cbn. repeat split; try lia. intros [? | ?]; congruence.
  - destruct Hstep as [A now fn now' | |].
    + destruct IH as (Hfc & Hsc & Hlast).
      destruct fn as [inner [result | error]]; execute_cases;
        (repeat split; [lia | lia |]);
        try (intros _; eexists; reflexivity);
        try (intros [? | ?]; congruence);
        try (intros Hgoal; apply Hlast; destruct Hgoal; auto; fail);
        try (intros _; apply Hlast; right; congruence).
    + exact IH.
    + cbn. repeat split; try lia. intros [? | ?]; congruence.
Qed.

Lemma reachable_counters_and_lastFailureTime_witness :
  let cb := (run (new test_breaker_config)
               [call_at 0 failingFn; call_at 1 failingFn; call_at 200 succeedingFn]).1 in
  0 <= failureCount cb
  /\ 0 <= successCount cb
  /\ (failureCount cb <> 0 \/ state cb <> closed -> is_Some (lastFailureTime cb)).
Proof.
  intros cb. apply (reachable_counters_and_lastFailureTime test_breaker_config).
  apply run_reachable, reachable_new.
Defined.

(** The blocks keep the configuration. *)
Lemma reachable_by_blocks_config (cfg : Config) (cb : t) :
  reachable_by_blocks cfg cb -> config cb = cfg.
Proof.
  induction 1 as [| cb cb' _ IH Hblock]; [reflexivity |].
  destruct Hblock as [now cb1 Hgate | | now |].
  - revert Hgate. unfold pass_gate. repeat case_match; intros; simplify_eq/=; reflexivity.
  - unfold onSuccess. repeat case_match; exact IH.
  - unfold onFailure. repeat case_match; exact IH.
  - exact IH.
Qed.

(** A call of [execute], with hooks that may throw, is an interleaving of
    blocks, and so is every sequence of calls. *)
Lemma execute_with_hooks_by_blocks {A : Type} (cfg : Config)
    (throws : callback -> option exn) (cb : t) (now : Z)
    (fn : list event * completion A) (now' : Z) :
  reachable_by_blocks cfg cb ->
  reachable_by_blocks cfg (execute_with_hooks throws cb now fn now').1.1.
Proof.
  intros Hreach. unfold execute_with_hooks.
  destruct (negb (is_enabled (config cb))); [exact Hreach |].
  destruct (pass_gate cb now) as [cb1 |] eqn:Hgate; [| exact Hreach].
  pose proof (by_blocks_step cfg cb cb1 Hreach (block_pass_gate cb now cb1 Hgate)) as H1.
  destruct fn as [inner [result | error]]; cbn [snd].
  - pose proof (by_blocks_step cfg cb1 _ H1 (block_onSuccess cb1)) as H2.
    destruct (onSuccess cb1) as [cb2 hooks]. cbn [fst] in H2.
    destruct (thrown throws hooks); [| exact H2].
    pose proof (by_blocks_step cfg cb2 _ H2 (block_onFailure cb2 now')) as H3.
    destruct (onFailure cb2 now') as [cb3 hooks']. cbn [fst] in H3.
    destruct (thrown throws hooks'); exact H3.
  - pose proof (by_blocks_step cfg cb1 _ H1 (block_onFailure cb1 now')) as H3.
    destruct (onFailure cb1 now') as [cb3 hooks']. cbn [fst] in H3.
    destruct (thrown throws hooks'); exact H3.
Qed.

(** When calls overlap, an open breaker can have counted no failure:
    with threshold 2, two calls fail and open the circuit, and a call
    that was in flight then succeeds. *)
Lemma open_below_threshold_by_overlap :
  let cb0 := new test_breaker_config in
  let cb1 := (onFailure cb0 1).1 in
  let cb2 := (onFailure cb1 2).1 in
  let cb3 := (onSuccess cb2).1 in
  reachable_by_blocks test_breaker_config cb3
  /\ state cb3 = open
  /\ failureCount cb3 = 0.
Proof.
  intros cb0 cb1 cb2 cb3. split; [| split; reflexivity].
  apply (by_blocks_step _ cb2); [| apply block_onSuccess].
  apply (by_blocks_step _ cb1); [| apply block_onFailure].
  apply (by_blocks_step _ cb0); [| apply block_onFailure].
  apply by_blocks_new.
Qed.

(** X12. With positive thresholds and a configuration that is not
    replaced, in every breaker that calls of [execute] and [reset] lead
    to from a new one, also when the calls overlap and when hooks throw,
    a closed breaker has fewer failures counted than [failureThreshold]
    and a half-open breaker has fewer successes counted than
    [successThreshold]. *)
Theorem threshold_bounds_under_overlap (cfg : Config) (failures successes : Z) (cb : t) :
  failureThreshold cfg = Some failures ->
  successThreshold cfg = Some successes ->
  0 < failures ->
  0 < successes ->
  reachable_by_blocks cfg cb ->
  (state cb = closed -> failureCount cb < failures)
  /\ (state cb = half_open -> successCount cb < successes).
Proof.
  intros Hf Hs Hfpos Hspos Hreach.
  induction Hreach as [| cb cb' Hreach IH Hblock].
  - cbn. split; intros; [lia | discriminate].
  - pose proof (reachable_by_blocks_config _ _ Hreach) as Hcfg. subst cfg.
    destruct IH as [Hclosed Hhalf].
    destruct Hblock as [now cb1 Hgate | | now |].
    + revert Hgate. unfold pass_gate.
      repeat (case_bool_decide || case_match); intros; simplify_eq/=;
        split; intros; try discriminate; try lia; auto.
    + unfold onSuccess, ge. rewrite Hs.
      repeat (case_bool_decide || case_match); simplify_eq/=;
        rewrite ?Z.leb_le, ?Z.leb_gt in *;
        split; intros; try discriminate; try congruence; try lia.
    + unfold onFailure, ge. rewrite Hf.
      repeat (case_bool_decide || case_match); simplify_eq/=;
        rewrite ?Z.leb_le, ?Z.leb_gt in *;
        split; intros; try discriminate; try congruence; try lia.
    + cbn. split; intros; [lia | discriminate].
Qed.

Lemma threshold_bounds_under_overlap_witness :
  let cb3 := (onSuccess (onFailure (onFailure (new test_breaker_config) 1).1 2).1).1 in
  let probing := {| config := test_breaker_config;
                    state := half_open;
                    failureCount := 0;
                    successCount := 0;
                    lastFailureTime := Some 2 |} in
  let cb := (onSuccess probing).1 in
  pass_gate cb3 200 = Some probing
  /\ (state cb = closed -> failureCount cb < 2)
  /\ (state cb = half_open -> successCount cb < 2).
Proof.
  intros cb3 probing cb. split; [reflexivity |].
  apply (threshold_bounds_under_overlap test_breaker_config 2 2).
  - reflexivity.
  - reflexivity.
  - lia.
  - lia.
  - apply (by_blocks_step _ probing); [| apply block_onSuccess].
    apply (by_blocks_step _ cb3); [| apply (block_pass_gate cb3 200); reflexivity].
    apply (by_blocks_step _ (onFailure (onFailure (new test_breaker_config) 1).1 2).1);
      [| apply block_onSuccess].
    apply (by_blocks_step _ (onFailure (new test_breaker_config) 1).1);
      [| apply block_onFailure].
    apply (by_blocks_step _ (new test_breaker_config)); [| apply block_onFailure].
    apply by_blocks_new.
Defined.

(** X13. The hooks mark the transitions of one call of [execute], also
    when hooks throw: [onCircuitOpen] is called only by a call that ends
    with a throw and leaves the breaker open; [onCircuitClose] is called
    only after the operation succeeded on a breaker that was not closed,
    and when it returns normally the breaker is left closed and the call
    ends as the operation ended. A call that moves the breaker into open,
    or into closed, calls the configured hook. *)
Theorem hooks_mark_transitions {A : Type} (throws : callback -> option exn)
    (cb : t) (now : Z) (fn : list event * completion A) (now' : Z) (hook : callback) :
  let out := execute_with_hooks throws cb now fn now' in
  (In (Ev_onCircuitOpen hook) out.1.2 ->
     onCircuitOpen (config cb) = Some hook
     /\ state out.1.1 = open /\ returns out.2 = false)
  /\ (In (Ev_onCircuitClose hook) out.1.2 ->
      onCircuitClose (config cb) = Some hook
      /\ returns fn.2 = true /\ state cb <> closed
      /\ (throws hook = None -> state out.1.1 = closed /\ out.2 = fn.2))
  /\ (onCircuitOpen (config cb) = Some hook ->
      state cb <> open -> state out.1.1 = open -> In (Ev_onCircuitOpen hook) out.1.2)
  /\ (onCircuitClose (config cb) = Some hook ->
      state cb <> closed -> state out.1.1 = closed ->
      In (Ev_onCircuitClose hook) out.1.2).
Proof.
  intros out. subst out.
  destruct fn as [inner [result | error]];
    destruct (onCircuitOpen (config cb)) as [opening |] eqn:Hopen,
             (onCircuitClose (config cb)) as [closing |] eqn:Hclose;
    try destruct (throws opening) eqn:Hthrows_open;
    try destruct (throws closing) eqn:Hthrows_close;
    unfold execute_with_hooks, thrown;
    execute_cases;
    rewrite ?Hopen, ?Hclose in *; cbn [optional_call fold_left hook_of app] in *;
    rewrite ?Hthrows_open, ?Hthrows_close in *;
    repeat case_match; simplify_eq/=;
    repeat split; intros; simplify_eq; cbn [In] in *;
    try congruence; try tauto; try (intuition congruence).
Qed.

(** With [failureThreshold] 1 and an [onCircuitClose] that throws, a
    success of the probe that completes [successThreshold] is counted as
    a failure: [onCircuitOpen] is called and the breaker is left open. *)
Lemma hooks_mark_transitions_witness :
  let cfg := {| enabled := Some true;
                failureThreshold := Some 1;
                successThreshold := Some 1;
                timeout := Some 100;
                onCircuitOpen := Some (Callback 1);
                onCircuitClose := Some (Callback 2) |} in
  let throws (hook : callback) :=
    match hook with
    | Callback 2 => Some (Exn_Error (new_Error "hook"))
    | _ => None
    end in
  let cb := (run (new cfg) [call_at 0 failingFn]).1 in
  let out := execute_with_hooks throws cb 200 succeedingFn 201 in
  In (Ev_onCircuitOpen (Callback 1)) out.1.2
  /\ state out.1.1 = open
  /\ returns out.2 = false.
Proof.
  intros cfg throws cb out.
  split; [right; right; left; reflexivity |].
  refine (proj2 (proj1 (hooks_mark_transitions throws cb 200 succeedingFn 201 (Callback 1))
                   _)).
  right. right. left. reflexivity.
Defined.

(** A breaker whose configuration has no [failureThreshold] stays closed. *)
Lemma reachable_without_failureThreshold (cfg : Config) (cb : t) :
  failureThreshold cfg = None ->
  reachable cfg cb ->
  state cb = closed.
Proof.
  intros Hnone Hreach.
  pose proof (reachable_config _ _ Hreach) as Hcfg. revert Hcfg.
  induction Hreach as [| cb cb' Hreach IH Hstep]; [reflexivity |].
  pose proof (reachable_config _ _ Hreach) as Hcb. specialize (IH Hcb).
  destruct Hstep as [A now fn now' | |]; [| intros _; exact IH | reflexivity].
  intros _. subst cfg.
  destruct fn as [inner [result | error]]; execute_cases; congruence.
Qed.

(** The breaker of a client after a sequence of requests is reachable. *)
Lemma requests_reachable (cfg : Config) (calls : list request_call) (w : HttpWrapper.t) :
  reachable cfg (HttpWrapper.breaker w) ->
  reachable cfg (HttpWrapper.breaker (requests w calls).1).
Proof.
  revert w. induction calls as [| c calls IH]; intros w Hreach; [exact Hreach |].
  cbn [requests]. unfold HttpWrapper.request.
  match goal with
  | |- context [execute ?b ?n ?f ?n'] =>
      pose proof (step_execute b n f n') as Hstep;
      destruct (execute b n f n') as [[cb1 evs] result]
  end.
  cbn [fst] in Hstep.
  specialize (IH {| HttpWrapper.config := HttpWrapper.config w;
                    HttpWrapper.breaker := cb1 |}
                (reachable_step _ _ _ Hreach Hstep)).
  destruct (requests _ calls) as [w2 results]. exact IH.
Qed.

(** X14. The constructor replaces the default [circuitBreaker] object by
    the one it is given, as a whole: the keys left out are undefined, not
    the defaults. A client built with a [circuitBreaker] object that has
    no [failureThreshold] never opens its circuit, whatever its requests
    do. *)
Theorem partial_circuitBreaker_options_never_open
    (options : HttpWrapper.Options) (c : Config) (calls : list request_call) :
  HttpWrapper.o_circuitBreaker options = Some c ->
  failureThreshold c = None ->
  config (HttpWrapper.breaker (HttpWrapper.new options)) = c
  /\ state (HttpWrapper.breaker (requests (HttpWrapper.new options) calls).1) = closed.
Proof.
  intros Hgiven Hnone.
  assert (Hcfg : HttpWrapper.breaker (HttpWrapper.new options) = new c).
  { unfold HttpWrapper.new, HttpWrapper.spread. cbn. rewrite Hgiven. reflexivity. }
  split; [rewrite Hcfg; reflexivity |].
  apply (reachable_without_failureThreshold c); [exact Hnone |].
  apply requests_reachable. rewrite Hcfg. apply reachable_new.
Qed.

Lemma partial_circuitBreaker_options_never_open_witness :
  let failing :=
    {| rc_options := HttpWrapper.no_options;
       rc_now := 0;
       rc_transport := transport_of [];
       rc_random := fun _ => 0;
       rc_catch := 0 |} in
  failureThreshold
    (config (HttpWrapper.breaker (HttpWrapper.new options_partial_circuitBreaker))) = None
  /\ state (HttpWrapper.breaker
              (requests (HttpWrapper.new options_partial_circuitBreaker)
                 (replicate 6 failing)).1) = closed.
Proof.
  intros failing.
  destruct (partial_circuitBreaker_options_never_open options_partial_circuitBreaker
              _ (replicate 6 failing) eq_refl eq_refl) as [Hcfg Hclosed].
  split; [rewrite Hcfg; reflexivity | exact Hclosed].
Defined.

(** X15. While an enabled breaker is open, calls made before the timeout
    has passed since the last failure (every call, when the configuration
    has no [timeout]) invoke nothing and leave the breaker exactly as it
    was: rejected calls neither extend nor shorten the wait. *)
Theorem open_breaker_rejects_until_timeout {A : Type} (cb : t) (calls : list (call A)) :
  is_enabled (config cb) = true ->
  state cb = open ->
  Forall (fun c => ge (at_entry c - to_number (lastFailureTime cb)) (timeout (config cb))
                   = false) calls ->
  run cb calls = (cb, [])
  /\ Forall (fun c => (execute cb (at_entry c) (fn c) (at_catch c)).2
                     = Throw (Exn_CircuitBreakerOpenError "Circuit breaker is OPEN")) calls.
Proof.
  intros Henabled Hopen Hearly.
  assert (Hreject : forall c : call A,
             ge (at_entry c - to_number (lastFailureTime cb)) (timeout (config cb)) = false ->
             execute cb (at_entry c) (fn c) (at_catch c)
             = (cb, [], Throw (Exn_CircuitBreakerOpenError "Circuit breaker is OPEN"))).
  { intros c Hc. unfold execute, pass_gate. rewrite Henabled. cbn [negb].
    rewrite bool_decide_eq_true_2 by exact Hopen. rewrite Hc. reflexivity. }
  split.
  - induction Hearly as [| c calls Hc _ IH]; [reflexivity |].
    cbn [run]. rewrite (Hreject c Hc), IH. reflexivity.
  - eapply Forall_impl; [exact Hearly |]. intros c Hc. cbn beta.
    rewrite (Hreject c Hc). reflexivity.
Qed.

Lemma open_breaker_rejects_until_timeout_witness :
  let cb := (run (new test_breaker_config) [call_at 0 failingFn; call_at 1 failingFn]).1 in
  let calls := [call_at 2 succeedingFn; call_at 50 succeedingFn; call_at 100 succeedingFn] in
  run cb calls = (cb, [])
  /\ Forall (fun c => (execute cb (at_entry c) (fn c) (at_catch c)).2
                     = Throw (Exn_CircuitBreakerOpenError "Circuit breaker is OPEN")) calls.
Proof.
  intros cb calls. apply (open_breaker_rejects_until_timeout cb calls).
  - reflexivity.
  - reflexivity.
  - repeat constructor.
Defined.

End CircuitBreakerFurtherProperties.

(** ** The retry loop: attempts, sleeps and outcome *)

Section RetryLoopFurtherProperties.

Import HttpWrapper.

Variable attemptFn : nat -> attempt_result.
Variable random : nat -> Z.
Variable cfg : Config.

(** The loop from [attempt <= maxRetries] on: it makes [k] retries, all
    after retryable failures, and ends as attempt [attempt + k] ends. *)
Lemma retry_from_attempts (n attempt : nat) (lastError : exn) :
  n = Z.to_nat (maxRetries cfg + 1 - Z.of_nat attempt) ->
  Z.of_nat attempt <= maxRetries cfg ->
  exists k : nat,
    Z.of_nat (attempt + k) <= maxRetries cfg
    /\ (forall j : nat, (attempt <= j < attempt + k)%nat ->
          exists e : object,
            attemptFn j = Attempt_failed e
            /\ isRetryableError e (retryableStatuses cfg) (retryableErrors cfg) = true)
    /\ List.filter is_fetchWithTimeout (retry_from attemptFn random cfg attempt lastError).1
       = map Ev_fetchWithTimeout (seq attempt (S k))
    /\ sleep_delays (retry_from attemptFn random cfg attempt lastError).1
       = map (fun j : nat =>
                calculateDelay j (baseDelay cfg) (maxDelay cfg) (jitter cfg) (random j))
           (seq attempt k)
    /\ length (List.filter is_onRetry (retry_from attemptFn random cfg attempt lastError).1)
       = match onRetry cfg with Some _ => k | None => 0%nat end
    /\ ((exists response : Response,
           attemptFn (attempt + k)%nat = Attempt_ok response
           /\ (retry_from attemptFn random cfg attempt lastError).2 = Return response)
        \/ (exists e : object,
              attemptFn (attempt + k)%nat = Attempt_failed e
              /\ (retry_from attemptFn random cfg attempt lastError).2 = Throw (Exn_Error e)
              /\ (Z.of_nat (attempt + k) = maxRetries cfg
                  \/ isRetryableError e (retryableStatuses cfg) (retryableErrors cfg)
                     = false))).
Proof.
  revert attempt lastError.
  induction n as [| n IH]; intros attempt lastError Hn Hle; [lia |].
  rewrite retry_from_unfold.
  destruct (Z.leb_spec (Z.of_nat attempt) (maxRetries cfg)) as [_ | ?]; [| lia].
  destruct (attemptFn attempt) as [response | e] eqn:Hattempt.
  - exists 0%nat. rewrite Nat.add_0_r. cbn.
    repeat split; [lia | intros j ?; lia | destruct (onRetry cfg); reflexivity |].
    left. eauto.
  - destruct (Z.eqb_spec (Z.of_nat attempt) (maxRetries cfg)) as [Hlast | Hmore].
    { exists 0%nat. rewrite Nat.add_0_r. cbn.
      repeat split; [lia | intros j ?; lia | destruct (onRetry cfg); reflexivity |].
      right. eauto. }
    destruct (isRetryableError e (retryableStatuses cfg) (retryableErrors cfg)) eqn:Hretry;
      cbn [negb].
    2:{ exists 0%nat. rewrite Nat.add_0_r. cbn.
        repeat split; [lia | intros j ?; lia | destruct (onRetry cfg); reflexivity |].
        right. eauto. }
    destruct (IH (S attempt) (Exn_Error e)) as (k & Hbound & Hfailed & Hfetch & Hsleep
                                                  & Hhook & Hend); [lia | lia |].
    destruct (retry_from attemptFn random cfg (S attempt) (Exn_Error e))
      as [later result] eqn:Hrec.
    cbn [fst snd] in *.
    exists (S k).
    replace (attempt + S k)%nat with (S attempt + k)%nat by lia.
    split; [exact Hbound |].
    split.
    { intros j Hj. destruct (Nat.eq_dec j attempt) as [-> | Hne]; [eauto |].
      apply Hfailed. lia. }
    split.
    { destruct (onRetry cfg); cbn; rewrite Hfetch; reflexivity. }
    split.
    { unfold sleep_delays in *. destruct (onRetry cfg); cbn; rewrite Hsleep; reflexivity. }
    split.
    { destruct (onRetry cfg); cbn; rewrite Hhook; reflexivity. }
    exact Hend.
Qed.


(** X16. With a negative [maxRetries] the loop makes no attempt at all
    and throws [undefined]. *)
Theorem retry_loop_negative_maxRetries :
  maxRetries cfg < 0 ->
  operation attemptFn random cfg = ([], Throw Exn_undefined).
Proof.
  intros Hneg. unfold operation. rewrite retry_from_unfold.
  destruct (Z.leb_spec (Z.of_nat 0) (maxRetries cfg)); [lia | reflexivity].
Qed.

(** X17. With [maxRetries = 0] the loop makes exactly one attempt and ends
    as it ends, whether its error is retryable or not; there is no call
    of [onRetry] and no sleep. *)
Theorem retry_loop_zero_maxRetries :
  maxRetries cfg = 0 ->
  operation attemptFn random cfg
  = ([Ev_fetchWithTimeout 0],
     match attemptFn 0%nat with
     | Attempt_ok response => Return response
     | Attempt_failed error => Throw (Exn_Error error)
     end).
Proof.
  intros Hzero. unfold operation. rewrite retry_from_unfold, Hzero.
  cbn. destruct (attemptFn 0%nat); reflexivity.
Qed.




(** Every delay the loop can compute lies between 0 and [maxDelay]. *)
Lemma calculateDelay_bounded
    (attempt : nat) (baseDelay maxDelay : Z) (withJitter : bool) (draw : Z) :
  0 < baseDelay ->
  0 <= maxDelay <= 2 ^ 53 ->
  0 <= draw < RANDOM_DENOM ->
  exists d : Z,
    calculateDelay attempt baseDelay maxDelay withJitter draw = Fin d
    /\ 0 <= d <= maxDelay.
Proof.
  intros Hbase Hmax Hdraw.
  assert (Hpow : 0 < 2 ^ Z.of_nat attempt) by (apply Z.pow_pos_nonneg; lia).
  assert (Hfinite : maxDelay < DBL_OVERFLOW).
  { rewrite DBL_OVERFLOW_pow.
    assert (2 ^ 53 < 2 ^ 1024) by (apply Z.pow_lt_mono_r; lia). lia. }
  unfold calculateDelay. rewrite exponentialDelay_value by assumption.
  set (cap := Z.min (baseDelay * 2 ^ Z.of_nat attempt) maxDelay).
  assert (Hcap : 0 <= cap <= maxDelay) by (subst cap; nia).
  destruct withJitter; cbn [negb]; [| eauto].
  destruct (Math_floor_random_mul_bounded draw cap Hdraw ltac:(lia)) as (d & Hd & Hbound).
  exists d. split; [exact Hd | lia].
Qed.

(** X21. For a configuration with [0 < baseDelay],
    [0 <= maxDelay <= 2^53] and [maxRetries >= 0], every sleep of the
    loop lasts between 0 and [maxDelay], with or without jitter (the
    jittered product rounded as doubles are), and there are at most
    [maxRetries] sleeps. Without jitter and with [baseDelay <= maxDelay]
    the sleeps are [baseDelay], [2 * baseDelay], [4 * baseDelay] and so
    on, each capped at [maxDelay]. *)
Theorem retry_loop_sleep_schedule :
  0 <= maxRetries cfg ->
  0 < baseDelay cfg ->
  0 <= maxDelay cfg <= 2 ^ 53 ->
  (forall attempt : nat, 0 <= random attempt < RANDOM_DENOM) ->
  Forall (fun d => exists z : Z, d = Fin z /\ 0 <= z <= maxDelay cfg)
    (sleep_delays (operation attemptFn random cfg).1)
  /\ Z.of_nat (length (sleep_delays (operation attemptFn random cfg).1)) <= maxRetries cfg
  /\ (jitter cfg = false ->
      baseDelay cfg <= maxDelay cfg ->
      sleep_delays (operation attemptFn random cfg).1
      = map (fun attempt : nat =>
               Fin (Z.min (baseDelay cfg * 2 ^ Z.of_nat attempt) (maxDelay cfg)))
          (seq 0 (length (sleep_delays (operation attemptFn random cfg).1)))).
Proof.
  intros Hmax Hbase Hcap Hrandom. unfold operation.
  assert (Hfinite : maxDelay cfg < DBL_OVERFLOW).
  { rewrite DBL_OVERFLOW_pow.
    assert (2 ^ 53 < 2 ^ 1024) by (apply Z.pow_lt_mono_r; lia). lia. }
  destruct (retry_from_attempts _ 0 Exn_undefined eq_refl Hmax)
    as (k & Hbound & _ & _ & Hsleep & _ & _).
  rewrite Hsleep, length_map, length_seq. cbn [Nat.add] in Hbound.
  split; [| split; [exact Hbound |]].
  - apply Forall_forall. intros d Hd. apply list_elem_of_In, in_map_iff in Hd.
    destruct Hd as (attempt & <- & _).
    apply calculateDelay_bounded; auto.
  - intros Hjitter Hle. apply map_ext. intros attempt.
    unfold calculateDelay. rewrite Hjitter. cbn [negb].
    apply exponentialDelay_value; assumption.
Qed.

End RetryLoopFurtherProperties.

Section RetryLoopFurtherScenarios.

Import HttpWrapper.

Lemma retry_loop_negative_maxRetries_witness :
  operation (fun _ => Attempt_ok response_200) (fun _ => 0)
    (spread DEFAULT_CONFIG options_negative_maxRetries)
  = ([], Throw Exn_undefined).
Proof.
  apply retry_loop_negative_maxRetries. vm_compute. reflexivity.
Defined.

Lemma retry_loop_zero_maxRetries_witness :
  operation (fun _ => Attempt_failed error_503) (fun _ => 0)
    (spread DEFAULT_CONFIG options_zero_maxRetries)
  = ([Ev_fetchWithTimeout 0], Throw (Exn_Error error_503)).
Proof.
  apply (retry_loop_zero_maxRetries (fun _ => Attempt_failed error_503) (fun _ => 0)
           (spread DEFAULT_CONFIG options_zero_maxRetries)).
  reflexivity.
Defined.




Lemma retry_loop_sleep_schedule_witness :
  Forall (fun d => exists z : Z, d = Fin z /\ 0 <= z <= 30000)
    (sleep_delays
       (operation (fun _ => Attempt_failed error_503) (fun _ => 6004799503160661)
          DEFAULT_CONFIG).1).
Proof.
  refine (proj1 (retry_loop_sleep_schedule (fun _ => Attempt_failed error_503)
                   (fun _ => 6004799503160661) DEFAULT_CONFIG _ _ _ _)).
  - vm_compute. discriminate.
  - reflexivity.
  - split; vm_compute; discriminate.
  - intros _. split; vm_compute; [discriminate | reflexivity].
Defined.

End RetryLoopFurtherScenarios.

(** ** Requests through the circuit breaker *)

Section RequestProperties.

Import HttpWrapper.

(** X22. A request on a client whose enabled breaker is open, made before
    the breaker's timeout has passed, makes no attempt, throws the circuit
    breaker's error and leaves the client as it was; no per-call option
    changes that. *)
Theorem request_rejected_while_open
    (w : t) (options : Options) (now : Z) (transport : nat -> fetch_outcome)
    (random : nat -> Z) (now' : Z) :
  CircuitBreaker.is_enabled (CircuitBreaker.config (breaker w)) = true ->
  CircuitBreaker.state (breaker w) = CircuitBreaker.open ->
  CircuitBreaker.ge
    (now - CircuitBreaker.to_number (CircuitBreaker.lastFailureTime (breaker w)))
    (CircuitBreaker.timeout (CircuitBreaker.config (breaker w))) = false ->
  request w options now transport random now'
  = (w, [], Throw (Exn_CircuitBreakerOpenError "Circuit breaker is OPEN")).
Proof.
  intros Henabled Hopen Hearly.
  unfold request, CircuitBreaker.execute, CircuitBreaker.pass_gate.
  rewrite Henabled, Hearly. cbn [negb].
  rewrite bool_decide_eq_true_2 by exact Hopen.
  destruct w. reflexivity.
Qed.

(** A request is the call of [execute] it makes. *)
Lemma request_as_execute (w : t) (c : request_call) :
  request w (rc_options c) (rc_now c) (rc_transport c) (rc_random c) (rc_catch c)
  = let '(cb, evs, result) :=
      CircuitBreaker.execute (breaker w) (rc_now c)
        (request_operation (config w) c) (rc_catch c) in
    ({| config := config w; breaker := cb |}, evs, result).
Proof. reflexivity. Qed.

(** A sequence of requests is the sequence of calls of [execute] they
    make; the client's configuration stays. *)
Lemma requests_run (calls : list request_call) (w : t) :
  config (requests w calls).1 = config w
  /\ breaker (requests w calls).1
     = (CircuitBreaker.run (breaker w) (map (request_as_call (config w)) calls)).1.
Proof.
  revert w. induction calls as [| c calls IH]; intros w; [split; reflexivity |].
  cbn [requests map CircuitBreaker.run]. rewrite request_as_execute.
  cbn [request_as_call CircuitBreaker.at_entry CircuitBreaker.fn CircuitBreaker.at_catch].
  destruct (CircuitBreaker.execute (breaker w) (rc_now c)
              (request_operation (config w) c) (rc_catch c)) as [[cb evs] result].
  specialize (IH {| config := config w; breaker := cb |}). cbn [config breaker] in IH.
  destruct (requests {| config := config w; breaker := cb |} calls) as [w2 results].
  destruct (CircuitBreaker.run cb (map (request_as_call (config w)) calls)) as [cb2 evs'].
  exact IH.
Qed.

(** X23. On a new client whose breaker is enabled with a positive
    [failureThreshold], that many requests in a row whose retry loops
    fail, however many attempts each makes, open the circuit; a request
    that follows before the breaker's timeout has passed makes no attempt
    and throws the circuit breaker's error. *)
Theorem failing_requests_open_the_circuit
    (options : Options) (failures wait : Z) (calls : list request_call)
    (next : request_call) :
  let w := new options in
  let w' := (requests w calls).1 in
  CircuitBreaker.is_enabled (circuitBreaker (config w)) = true ->
  CircuitBreaker.failureThreshold (circuitBreaker (config w)) = Some failures ->
  CircuitBreaker.timeout (circuitBreaker (config w)) = Some wait ->
  0 < failures ->
  Z.of_nat (length calls) = failures ->
  Forall (fun c => returns (request_operation (config w) c).2 = false) calls ->
  CircuitBreaker.state (breaker w') = CircuitBreaker.open
  /\ (rc_now next
      - CircuitBreaker.to_number (CircuitBreaker.lastFailureTime (breaker w')) < wait ->
      request w' (rc_options next) (rc_now next) (rc_transport next) (rc_random next)
        (rc_catch next)
      = (w', [], Throw (Exn_CircuitBreakerOpenError "Circuit breaker is OPEN"))).
Proof.
  intros w w' Henabled Hthreshold Htimeout Hpos Hlen Hfail.
  destruct (requests_run calls w) as [Hconfig Hbreaker].
  fold w' in Hconfig, Hbreaker.
  assert (Hcfg : CircuitBreaker.config (breaker w') = circuitBreaker (config w)).
  { rewrite Hbreaker.
    apply (reachable_config (circuitBreaker (config w))).
    apply run_reachable, CircuitBreaker.reachable_new. }
  assert (Hopen : CircuitBreaker.state (breaker w') = CircuitBreaker.open).
  { rewrite Hbreaker.
    apply (run_failures_open failures).
    - exact Henabled.
    - exact Hthreshold.
    - reflexivity.
    - unfold CircuitBreaker.all_fail. rewrite Forall_map. exact Hfail.
    - destruct calls; [cbn in Hlen; lia | discriminate].
    - rewrite length_map. cbn. lia. }
  split; [exact Hopen |].
  intros Hearly.
  unfold request, CircuitBreaker.execute, CircuitBreaker.pass_gate, CircuitBreaker.ge.
  rewrite Hcfg, Henabled, Htimeout. cbn [negb].
  rewrite bool_decide_eq_true_2 by exact Hopen.
  destruct (Z.leb_spec wait
              (rc_now next
               - CircuitBreaker.to_number (CircuitBreaker.lastFailureTime (breaker w'))));
    [lia |].
  destruct w'. reflexivity.
Qed.

(** The calls of [execute] with a configuration without hooks are at most
    the invocation of the operation. *)
Lemma execute_without_hooks {A : Type} (cb : CircuitBreaker.t) (now : Z)
    (fn : list event * completion A) (now' : Z) :
  CircuitBreaker.onCircuitOpen (CircuitBreaker.config cb) = None ->
  CircuitBreaker.onCircuitClose (CircuitBreaker.config cb) = None ->
  (CircuitBreaker.execute cb now fn now').1.2 = []
  \/ (CircuitBreaker.execute cb now fn now').1.2 = [Ev_fn fn.1].
Proof.
  intros Hopen Hclose.
  unfold CircuitBreaker.execute, CircuitBreaker.pass_gate, CircuitBreaker.settle,
    CircuitBreaker.onSuccess, CircuitBreaker.onFailure.
  destruct fn as [inner [result | error]]; cbn [fst snd];
    repeat (case_bool_decide || case_match); simplify_eq/=;
    rewrite ?Hopen, ?Hclose; cbn; auto.
Qed.

(** X24. The breaker reads its hooks from the [circuitBreaker] object of
    the configuration only. A client built without a [circuitBreaker]
    object keeps [onCircuitOpen] and [onCircuitClose] given at the top
    level of the options in its configuration, but no request of it ever
    calls them, whatever happens to the circuit. *)
Theorem top_level_circuit_hooks_are_never_called
    (options : Options) (calls : list request_call) (next : request_call) :
  o_circuitBreaker options = None ->
  let w' := (requests (new options) calls).1 in
  let evs := (request w' (rc_options next) (rc_now next) (rc_transport next)
                (rc_random next) (rc_catch next)).1.2 in
  onCircuitOpen (config w') = default None (o_onCircuitOpen options)
  /\ onCircuitClose (config w') = default None (o_onCircuitClose options)
  /\ List.filter is_onCircuitOpen evs = []
  /\ List.filter is_onCircuitClose evs = [].
Proof.
  intros Hnone w' evs.
  destruct (requests_run calls (new options)) as [Hconfig Hbreaker].
  fold w' in Hconfig, Hbreaker.
  assert (Hdefault : circuitBreaker (config (new options)) = circuitBreaker DEFAULT_CONFIG).
  { cbn. rewrite Hnone. reflexivity. }
  assert (Hcfg : CircuitBreaker.config (breaker w') = circuitBreaker DEFAULT_CONFIG).
  { rewrite Hbreaker, <- Hdefault.
    apply (reachable_config (circuitBreaker (config (new options)))).
    apply run_reachable, CircuitBreaker.reachable_new. }
  split; [rewrite Hconfig; reflexivity |].
  split; [rewrite Hconfig; reflexivity |].
  subst evs. rewrite request_as_execute.
  pose proof (execute_without_hooks (breaker w') (rc_now next)
                (request_operation (config w') next) (rc_catch next)) as Hevs.
  rewrite Hcfg in Hevs. specialize (Hevs eq_refl eq_refl).
  destruct (CircuitBreaker.execute (breaker w') (rc_now next)
              (request_operation (config w') next) (rc_catch next)) as [[cb evs] result].
  cbn [fst snd] in *. destruct Hevs as [-> | ->]; split; reflexivity.
Qed.

Lemma top_level_circuit_hooks_are_never_called_witness :
  let w' := (requests (new options_top_level_hooks)
               (replicate 4 (request_at 0 response_503))).1 in
  let evs := (request w' no_options 1 (fun _ => Fetch_resolved response_503)
                (fun _ => 0) 1).1.2 in
  CircuitBreaker.state (breaker (request w' no_options 1
                                   (fun _ => Fetch_resolved response_503)
                                   (fun _ => 0) 1).1.1) = CircuitBreaker.open
  /\ onCircuitOpen (config w') = Some (Callback 1)
  /\ List.filter is_onCircuitOpen evs = [].
Proof.
  intros w' evs.
  destruct (top_level_circuit_hooks_are_never_called options_top_level_hooks
              (replicate 4 (request_at 0 response_503)) (request_at 1 response_503)
              eq_refl) as (Hopen & _ & Hevs & _).
  split; [vm_compute; reflexivity |]. split; [exact Hopen | exact Hevs].
Defined.

Lemma request_rejected_while_open_witness :
  let w := (requests (new no_options) (replicate 5 (request_at 0 response_503))).1 in
  request w options_negative_maxRetries 59999 (fun _ => Fetch_resolved response_200)
    (fun _ => 0) 59999
  = (w, [], Throw (Exn_CircuitBreakerOpenError "Circuit breaker is OPEN")).
Proof.
  intros w. apply request_rejected_while_open; vm_compute; reflexivity.
Defined.

Lemma failing_requests_open_the_circuit_witness :
  let w' := (requests (new no_options) (replicate 5 (request_at 0 response_503))).1 in
  CircuitBreaker.state (breaker w') = CircuitBreaker.open
  /\ request w' no_options 1000 (fun _ => Fetch_resolved response_200) (fun _ => 0) 1000
     = (w', [], Throw (Exn_CircuitBreakerOpenError "Circuit breaker is OPEN")).
Proof.
  intros w'.
  destruct (failing_requests_open_the_circuit no_options 5 60000
              (replicate 5 (request_at 0 response_503)) (request_at 1000 response_200))
    as [Hopen Hreject].
  - reflexivity.
  - reflexivity.
  - reflexivity.
  - lia.
  - reflexivity.
  - repeat constructor.
  - split; [exact Hopen |]. apply Hreject. vm_compute. reflexivity.
Defined.



End RequestProperties.

(** ** The command line: [parseHeaders] *)

Section ParseHeadersProperties.

Import Cli.

Lemma trimStart_idempotent (s : jsstring) : trimStart (trimStart s) = trimStart s.
Proof.
  induction s as [| c s IH]; [reflexivity |].
  cbn. destruct (is_white_space c) eqn:Hc; [exact IH |]. cbn. rewrite Hc. reflexivity.
Qed.

Lemma trimStart_app (s t : jsstring) :
  trimStart (s ++ t) = if forallb is_white_space s then trimStart t else trimStart s ++ t.
Proof.
  induction s as [| c s IH]; [reflexivity |].
  cbn. destruct (is_white_space c); [exact IH | reflexivity].
Qed.

Lemma forallb_rev_eq (f : N -> bool) (s : jsstring) : forallb f (rev s) = forallb f s.
Proof.
  induction s as [| c s IH]; [reflexivity |].
  cbn. rewrite forallb_app, IH. cbn. rewrite andb_true_r. apply andb_comm.
Qed.

Lemma trimEnd_app (s t : jsstring) :
  trimEnd (s ++ t) = if forallb is_white_space t then trimEnd s else s ++ trimEnd t.
Proof.
  unfold trimEnd. rewrite rev_app_distr, trimStart_app, forallb_rev_eq.
  destruct (forallb is_white_space t); [reflexivity |].
  rewrite rev_app_distr, rev_involutive. reflexivity.
Qed.

Lemma trimStart_all_white_space (s : jsstring) :
  forallb is_white_space s = true -> trimStart s = [].
Proof.
  induction s as [| c s IH]; [reflexivity |].
  cbn. destruct (is_white_space c); [exact IH | discriminate].
Qed.

Lemma trimEnd_idempotent (s : jsstring) : trimEnd (trimEnd s) = trimEnd s.
Proof. unfold trimEnd. rewrite rev_involutive, trimStart_idempotent. reflexivity. Qed.

Lemma trimStart_trimEnd (s : jsstring) : trimStart (trimEnd s) = trimEnd (trimStart s).
Proof.
  induction s as [| c s IH]; [reflexivity |].
  change (c :: s) with ([c] ++ s). rewrite trimEnd_app.
  cbn [app trimStart].
  destruct (is_white_space c) eqn:Hc.
  - destruct (forallb is_white_space s) eqn:Hs.
    + rewrite (trimStart_all_white_space s Hs).
      unfold trimEnd. cbn. rewrite Hc. reflexivity.
    + cbn. rewrite Hc. exact IH.
  - change (c :: s) with ([c] ++ s). rewrite trimEnd_app.
    destruct (forallb is_white_space s).
    + unfold trimEnd. cbn. rewrite Hc. cbn. rewrite Hc. reflexivity.
    + cbn. rewrite Hc. reflexivity.
Qed.

Lemma trim_idempotent (s : jsstring) : trim (trim s) = trim s.
Proof.
  unfold trim.
  rewrite (trimStart_trimEnd (trimStart s)), trimStart_idempotent, trimEnd_idempotent.
  reflexivity.
Qed.

Lemma includes_colon_In (s : jsstring) (sep : N) : includes s sep = true <-> In sep s.
Proof.
  unfold includes. rewrite existsb_exists. split.
  - intros (c & Hin & Heq). apply N.eqb_eq in Heq. subst c. exact Hin.
  - intros Hin. exists sep. split; [exact Hin | apply N.eqb_refl].
Qed.

Lemma split_not_empty (sep : N) (s : jsstring) : split sep s <> [].
Proof.
  induction s as [| c s IH]; [discriminate |].
  cbn. destruct (c =? sep)%N; [discriminate |].
  destruct (split sep s); [contradiction | discriminate].
Qed.

(** Splitting at the first separator. *)
Lemma split_at_first (sep : N) (name value : jsstring) :
  ~ In sep name ->
  split sep (name ++ sep :: value) = name :: split sep value.
Proof.
  induction name as [| c name IH]; intros Hnot.
  - cbn. rewrite N.eqb_refl. reflexivity.
  - cbn. destruct (N.eqb_spec c sep) as [-> | Hne].
    + exfalso. apply Hnot. left. reflexivity.
    + rewrite IH; [reflexivity |]. intros Hin. apply Hnot. right. exact Hin.
Qed.

(** Joining the pieces of a split gives the string back. *)
Lemma join_split (sep : N) (s : jsstring) : join sep (split sep s) = s.
Proof.
  induction s as [| c s IH]; [reflexivity |].
  cbn [split]. destruct (N.eqb_spec c sep) as [-> | Hne].
  - pose proof (split_not_empty sep s) as Hne.
    destruct (split sep s) as [| piece pieces] eqn:Hsplit; [contradiction |].
    cbn [join app]. cbn [join] in IH. rewrite IH. reflexivity.
  - pose proof (split_not_empty sep s) as Hnonempty.
    destruct (split sep s) as [| piece pieces]; [contradiction |].
    destruct pieces as [| piece' pieces]; cbn [join] in *.
    + rewrite IH. reflexivity.
    + rewrite <- IH. reflexivity.
Qed.

(** What the callback of [parseHeaders] does with a header whose first
    colon comes after [name]. *)
Lemma add_header_at_first_colon
    (result : gmap jsstring jsstring) (name value : jsstring) :
  ~ In colon name ->
  add_header result (name ++ colon :: value)
  = set_property result (trim name) (trim value).
Proof.
  intros Hnot. unfold add_header.
  assert (Hincludes : includes (name ++ colon :: value) colon = true).
  { apply includes_colon_In, in_or_app. right. left. reflexivity. }
  rewrite Hincludes, (split_at_first colon name value Hnot).
  cbn [hd tl]. rewrite join_split. reflexivity.
Qed.

(** X26. A header [name:value], where [name] has no colon and is not
    [__proto__] once trimmed, is parsed into the one entry that maps the
    trimmed name to the trimmed value; the colons of the value stay. A
    single string is parsed as the array of that string. *)
Theorem parseHeaders_name_value (name value : jsstring) :
  ~ In colon name ->
  trim name <> units "__proto__" ->
  parseHeaders (One (name ++ colon :: value)) = {[ trim name := trim value ]}
  /\ parseHeaders (Many [name ++ colon :: value]) = {[ trim name := trim value ]}.
Proof.
  intros Hnot Hproto.
  assert (Hone : add_header ∅ (name ++ colon :: value) = {[ trim name := trim value ]}).
  { rewrite (add_header_at_first_colon ∅ name value Hnot). unfold set_property.
    rewrite decide_False by exact Hproto. reflexivity. }
  split; exact Hone.
Qed.

Lemma parseHeaders_name_value_witness :
  parseHeaders (One (units " X-Time " ++ colon :: units "  12:30:00 "))
  = {[ trim (units " X-Time ") := trim (units "  12:30:00 ") ]}
  /\ parseHeaders (Many [units " X-Time " ++ colon :: units "  12:30:00 "])
     = {[ trim (units " X-Time ") := trim (units "  12:30:00 ") ]}.
Proof.
  apply parseHeaders_name_value.
  - vm_compute. intuition discriminate.
  - vm_compute. discriminate.
Defined.

(** X27. A header without a colon, and a header whose trimmed name is
    [__proto__], add nothing: the result is that of the array without
    them. *)
Theorem parseHeaders_ignored_headers (before after : list jsstring) (header : jsstring) :
  includes header colon = false
  \/ trim (hd [] (split colon header)) = units "__proto__" ->
  parseHeaders (Many (before ++ header :: after)) = parseHeaders (Many (before ++ after)).
Proof.
  intros Hignored.
  assert (Hnoop : forall acc : gmap jsstring jsstring, add_header acc header = acc).
  { intros acc. unfold add_header.
    destruct (includes header colon); [| reflexivity].
    destruct Hignored as [? | Hproto]; [discriminate |].
    cbn zeta. unfold set_property. rewrite decide_True by exact Hproto. reflexivity. }
  unfold parseHeaders. rewrite !fold_left_app. cbn [fold_left].
  rewrite Hnoop. reflexivity.
Qed.

Lemma parseHeaders_ignored_headers_witness :
  parseHeaders (Many ([units "Accept: */*"] ++ units "__proto__: x" :: [units "A:b"]))
  = parseHeaders (Many ([units "Accept: */*"] ++ [units "A:b"])).
Proof.
  apply parseHeaders_ignored_headers. right. vm_compute. reflexivity.
Defined.

(** X28. A header [name:value] at the end of the array sets the entry of
    its trimmed name, replacing what an earlier header with that name
    gave, and leaves the other entries. *)
Theorem parseHeaders_last_header_wins (headers : list jsstring) (name value : jsstring) :
  ~ In colon name ->
  trim name <> units "__proto__" ->
  parseHeaders (Many (headers ++ [name ++ colon :: value]))
  = <[ trim name := trim value ]> (parseHeaders (Many headers))
  /\ parseHeaders (Many (headers ++ [name ++ colon :: value])) !! trim name
     = Some (trim value)
  /\ (forall key : jsstring,
        key <> trim name ->
        parseHeaders (Many (headers ++ [name ++ colon :: value])) !! key
        = parseHeaders (Many headers) !! key).
Proof.
  intros Hnot Hproto.
  assert (Hsnoc : parseHeaders (Many (headers ++ [name ++ colon :: value]))
                  = <[ trim name := trim value ]> (parseHeaders (Many headers))).
  { unfold parseHeaders. rewrite fold_left_app. cbn [fold_left].
    rewrite add_header_at_first_colon by exact Hnot. unfold set_property.
    rewrite decide_False by exact Hproto. reflexivity. }
  rewrite Hsnoc. split; [reflexivity |]. split.
  - apply lookup_insert_eq.
  - intros key Hkey. apply lookup_insert_ne. congruence.
Qed.

Lemma parseHeaders_last_header_wins_witness :
  parseHeaders (Many ([units "Accept: text/html"; units "Host: a"]
                      ++ [units "Accept" ++ colon :: units " */*"]))
    !! trim (units "Accept")
  = Some (trim (units " */*")).
Proof.
  refine (proj1 (proj2 (parseHeaders_last_header_wins
                          [units "Accept: text/html"; units "Host: a"]
                          (units "Accept") (units " */*") _ _))).
  - vm_compute. intuition discriminate.
  - vm_compute. discriminate.
Defined.

(** X29. Every name and every value in the result of [parseHeaders] is
    trimmed, and no name is [__proto__]. *)
Theorem parseHeaders_entries_are_trimmed
    (headers : headers_arg) (name value : jsstring) :
  parseHeaders headers !! name = Some value ->
  trim name = name /\ trim value = value /\ name <> units "__proto__".
Proof.
  unfold parseHeaders.
  set (headersArray := match headers with One h => [h] | Many hs => hs end).
  assert (Hinv : forall (hs : list jsstring) (acc : gmap jsstring jsstring),
             (forall k v, acc !! k = Some v ->
                trim k = k /\ trim v = v /\ k <> units "__proto__") ->
             forall k v, fold_left add_header hs acc !! k = Some v ->
               trim k = k /\ trim v = v /\ k <> units "__proto__").
  { induction hs as [| h hs IH]; intros acc Hacc; [exact Hacc |].
    cbn [fold_left]. apply IH. intros k v.
    unfold add_header. destruct (includes h colon); [| apply Hacc].
    cbn zeta. unfold set_property. case_decide as Hproto; [apply Hacc |].
    rewrite lookup_insert. case_decide as Hkey.
    - intros [= <-]. subst k. rewrite !trim_idempotent. auto.
    - apply Hacc. }
  apply (Hinv headersArray ∅). intros k v Hempty.
  rewrite lookup_empty in Hempty. discriminate.
Qed.

Lemma parseHeaders_entries_are_trimmed_witness :
  trim (units "X-Time") = units "X-Time"
  /\ trim (units "12:30:00") = units "12:30:00"
  /\ units "X-Time" <> units "__proto__".
Proof.
  apply (parseHeaders_entries_are_trimmed
           (Many [units "Accept: text/html"; units " X-Time :  12:30:00 "])).
  vm_compute. reflexivity.
Defined.

End ParseHeadersProperties.
